(** * osm/irc: the session controller of an IRC client, embedded in Rocq

    The development follows [core.go] (the outbound helpers: [Sendf],
    [Privmsg], [Nick], [Whois], [ReclaimNick], ...) and [conn.go]
    ([Connect], [reconnect], [loop]).

    Go strings are byte sequences and [len] counts bytes: they are Rocq
    [string]s (lists of 8-bit [ascii]) and [len] is [String.length].
    A method of [*Client] is a computation in the monad [M]: it reads and
    updates the client's fields and acts on the world around it (the
    transport, the network, the clock, the logger, the event hub), whose
    answers are scripted and whose calls are recorded in a trace.

    The trace is that of the goroutine running the method.  Handlers
    started by the hub run in goroutines of their own and are not part of
    it. *)

From Stdlib Require Import String Ascii List ZArith Bool Arith Lia.
From Stdlib Require Import DecimalString.
Import ListNotations.
Local Open Scope string_scope.
Local Open Scope list_scope.

(** ** Values of the Go side *)

(** Modelled from the spec: the constant [eol], which [core.go] uses and
    another file of the package declares.  Protocol lines are terminated
    by CR-LF; the comment of [Sendf] says the same. *)
Definition CR : ascii := ascii_of_nat 13.
Definition LF : ascii := ascii_of_nat 10.
Definition eol : string := String CR (String LF EmptyString).

(** Go's [error]: [nil] is [None] of [option error].  [io.EOF] is the one
    error the code compares against; every other error is known by its
    text. *)
Inductive error : Type :=
| EOF
| Err (msg : string).

(** [err.Error()] *)
Definition Error (e : error) : string :=
  match e with
  | EOF => "EOF"
  | Err msg => msg
  end.

Definition is_EOF (e : error) : bool :=
  match e with
  | EOF => true
  | Err _ => false
  end.

(** An operand of a formatting call ([...interface{}]): this package
    passes strings and, in one log line, a whole number. *)
Inductive value : Type :=
| VString (s : string)
| VInt (n : Z).

(** [fmt.Sprintf] belongs to Go's library, not to this package.  The model
    is parametric in it, so what is proved for every format string holds
    whatever the formatter does with it. *)
Class Formatter : Type := Sprintf : string -> list value -> string.

(** [Message], as [message_test.go] builds it. *)
Record Message : Type := mkMessage {
  Raw : string;
  Command : string;
  Params : string;
  ParamsArray : list string;
  Name : string;
  User : string;
  Host : string
}.

(** [parse] is the package's line parser, the one [TestMessages]
    exercises.  [loop] only looks at its two results, a [*Message] that
    may be [nil] and an [error] that may be [nil]; the model is parametric
    in it, so what is proved of [loop] holds whatever the parser. *)
Class Parser : Type := parse : string -> option Message * option error.

(** ** The world around the client *)

(** What one turn of the read loop meets: the quit channel is ready, or
    [ReadLine] returns a line and an error (either may be empty). *)
Inductive input : Type :=
| Quit
| Line (l : string) (err : option error).

(** A transport ([net.Conn]): what its peer will feed the read loop, and
    what the coming calls of [Write] will return (success once the list is
    used up). *)
Record Conn : Type := mkConn {
  feed : list input;
  wouts : list (option error)
}.

(** What a call of [net.Dial] returns. *)
Inductive dial_result : Type :=
| DialOk (cn : Conn)
| DialErr (e : error).

(** The calls the goroutine makes on the world, in order. *)
Inductive event : Type :=
| EvWrite (s : string)
| EvReadLine (l : string) (err : option error)
| EvClose
| EvDial (addr : string)
| EvSleep (d : Z)
| EvPublish (name : string) (m : Message).

Record World : Type := mkWorld {
  trace : list event;
  logged : list string;
  network : list dial_result
}.

(** The fields of [Client] that [core.go] and [conn.go] use.  [conn] is
    [None] for a [nil] connection. *)
Record Client : Type := mkClient {
  conn : option Conn;
  addr : string;
  nick : string;
  currentNick : string;
  user : string;
  realName : string;
  debug : bool
}.

(** ** The monad of client methods *)

(** How a computation ends: it returns, it panics (a [nil] dereference),
    it waits for an answer the script does not hold, or the nesting of
    [Connect] inside [reconnect] got deeper than the fuel allows. *)
Inductive outcome (A : Type) : Type :=
| Done (a : A)
| Panic
| Stuck
| OutOfFuel.
Arguments Done {A} a.
Arguments Panic {A}.
Arguments Stuck {A}.
Arguments OutOfFuel {A}.

Definition M (A : Type) : Type := Client -> World -> outcome A * Client * World.

Definition ret {A} (a : A) : M A := fun c w => (Done a, c, w).

Definition bind {A B} (m : M A) (f : A -> M B) : M B :=
  fun c w =>
    match m c w with
    | (Done a, c', w') => f a c' w'
    | (Panic, c', w') => (Panic, c', w')
    | (Stuck, c', w') => (Stuck, c', w')
    | (OutOfFuel, c', w') => (OutOfFuel, c', w')
    end.

Notation "x <- m ;; k" := (bind m (fun x => k))
  (at level 61, m at next level, right associativity).
Notation "m ;; k" := (bind m (fun _ => k))
  (at level 61, right associativity).

Definition getClient : M Client := fun c w => (Done c, c, w).
Definition setClient (c' : Client) : M unit := fun _ w => (Done tt, c', w).
Definition panic {A} : M A := fun c w => (Panic, c, w).
Definition stuck {A} : M A := fun c w => (Stuck, c, w).
Definition emit (e : event) : M unit :=
  fun c w => (Done tt, c, mkWorld (trace w ++ [e]) (logged w) (network w)).

(** The three components of a run. *)
Definition result_of {A} (r : outcome A * Client * World) : outcome A := fst (fst r).
Definition client_of {A} (r : outcome A * Client * World) : Client := snd (fst r).
Definition world_of {A} (r : outcome A * Client * World) : World := snd r.

(** Field updates of the client. *)
Definition with_conn (o : option Conn) (c : Client) : Client :=
  mkClient o (addr c) (nick c) (currentNick c) (user c) (realName c) (debug c).
Definition with_currentNick (s : string) (c : Client) : Client :=
  mkClient (conn c) (addr c) (nick c) s (user c) (realName c) (debug c).
Definition with_user (s : string) (c : Client) : Client :=
  mkClient (conn c) (addr c) (nick c) (currentNick c) s (realName c) (debug c).
Definition with_realName (s : string) (c : Client) : Client :=
  mkClient (conn c) (addr c) (nick c) (currentNick c) (user c) s (debug c).

(** The lines written so far, the sleeps taken so far. *)
Definition writes (t : list event) : list string :=
  flat_map (fun e => match e with EvWrite s => [s] | _ => [] end) t.
Definition sleeps (t : list event) : list Z :=
  flat_map (fun e => match e with EvSleep d => [d] | _ => [] end) t.

(** ** core.go *)

Section Core.
Context {F : Formatter}.

(** [c.log]: prints through the logger when debugging is on and the format
    is not empty. *)
Definition log (format : string) (args : list value) : M unit :=
  fun c w =>
    if debug c && negb (format =? "")
    then (Done tt, c, mkWorld (trace w) (logged w ++ [Sprintf format args]) (network w))
    else (Done tt, c, w).

(** [c.conn.Write([]byte(s))] on a connection that is not [nil]. *)
Definition conn_Write (s : string) : M (option error) :=
  c <- getClient ;;
  match conn c with
  | None => panic
  | Some cn =>
      emit (EvWrite s) ;;
      match wouts cn with
      | [] => ret None
      | r :: rest => setClient (with_conn (Some (mkConn (feed cn) rest)) c) ;; ret r
      end
  end.

(** Lines 27-29 of [Sendf]: [if len(s) > 510 { s = s[0:510] + eol }]. *)
Definition truncate (s : string) : string :=
  if (510 <? String.length s)%nat then substring 0 510 s ++ eol else s.

Definition Sendf (format : string) (args : list value) : M (option error) :=
  c <- getClient ;;
  match conn c with
  | None => ret None
  | Some _ =>
      let s := Sprintf (format ++ eol) args in
      let s := truncate s in
      log s [] ;;
      conn_Write s
  end.

(** [strings.Split(s, sep)] for a separator of one byte, as [Privmsg]
    calls it: the pieces between the separators, in order; a string
    without separator is the only piece, also when it is empty. *)
Fixpoint Split (s : string) (sep : ascii) : list string :=
  match s with
  | EmptyString => [EmptyString]
  | String a s' =>
      if Ascii.eqb a sep then EmptyString :: Split s' sep
      else match Split s' sep with
           | [] => [String a EmptyString]
           | piece :: pieces => String a piece :: pieces
           end
  end.

(** The [for i, w := range words] loop of [Privmsg]: [n] is [len(words)],
    [i] the index of the head of [ws], [msgs] and [msg] the two variables
    the loop updates.  It returns both as the loop leaves them. *)
Fixpoint Privmsg_pack (cmd : string) (n i : nat) (ws : list string)
    (msgs : list string) (msg : string) : list string * string :=
  match ws with
  | [] => (msgs, msg)
  | w :: ws' =>
      let '(msgs, msg) :=
        if (510 <=? String.length cmd + String.length msg + String.length w + 1)%nat
           || (i =? n - 1)%nat
        then (msgs ++ [msg], EmptyString)
        else (msgs, msg) in
      let msg := if negb (msg =? "") then (msg ++ " " ++ w)%string else w in
      Privmsg_pack cmd n (S i) ws' msgs msg
  end.

(** The [for _, m := range msgs] loop of [Privmsg]. *)
Fixpoint Privmsg_send (cmd : string) (msgs : list string) : M (option error) :=
  match msgs with
  | [] => ret None
  | m :: msgs' =>
      err <- Sendf "%s%s" [VString cmd; VString m] ;;
      match err with
      | Some e => ret (Some e)
      | None => Privmsg_send cmd msgs'
      end
  end.

Definition Privmsg (target message : string) : M (option error) :=
  let cmd := Sprintf "PRIVMSG %s :" [VString target] in
  if (String.length cmd + String.length message <=? 510)%nat
  then Sendf "%s%s" [VString cmd; VString message]
  else
    let words := Split message " "%char in
    let '(msgs, _) := Privmsg_pack cmd (List.length words) 0 words [] EmptyString in
    Privmsg_send cmd msgs.

Definition Notice (target message : string) : M (option error) :=
  Sendf "NOTICE %s :%s" [VString target; VString message].

Definition Mode (channel mode target : string) : M (option error) :=
  Sendf "MODE %s %s %s" [VString channel; VString mode; VString target].

Definition Nick (nick : string) : M (option error) :=
  Sendf "NICK %s" [VString nick].

Definition GetNick : M string :=
  c <- getClient ;; ret (currentNick c).

Definition Whois (nick : string) : M (option error) :=
  Sendf "WHOIS %s" [VString nick].

(** [ReclaimNick] holds [infoMu] around its body; in a run of one
    goroutine the lock is free on entry and free again on exit, so the
    model keeps the body only.  The result of [Whois] is dropped, as in
    the source. *)
Definition ReclaimNick : M unit :=
  c <- getClient ;;
  if negb (nick c =? currentNick c)
  then Whois (nick c) ;; ret tt
  else ret tt.

End Core.

(** The variants of [Privmsg] and [Notice] that take a format: the
    message is rendered first and then handed on. *)
Section Formatted.
Context {F : Formatter}.

Definition Privmsgf (target format : string) (args : list value) : M (option error) :=
  Privmsg target (Sprintf format args).

Definition Noticef (target format : string) (args : list value) : M (option error) :=
  Notice target (Sprintf format args).

End Formatted.

(** ** conn.go *)

(** [time.Duration] is a signed 64-bit count of nanoseconds. *)
Definition wrap64 (z : Z) : Z := ((z + 2 ^ 63) mod 2 ^ 64 - 2 ^ 63)%Z.
Definition Second : Z := 1000000000%Z.

(** [fmt.Errorf] on a text without verbs and without operands: the
    error's text is the format. *)
Definition Errorf (format : string) : error := Err format.

Section Connection.
Context {F : Formatter} {P : Parser}.

Definition modify (f : Client -> Client) : M unit :=
  fun c w => (Done tt, f c, w).

(** [c.conn.Close()]: a method call on a [nil] interface panics. *)
Definition conn_Close : M unit :=
  c <- getClient ;;
  match conn c with
  | None => panic
  | Some _ => emit EvClose
  end.

Definition Sleep (d : Z) : M unit := emit (EvSleep d).

(** [net.Dial("tcp", addr)]: the connection ([nil] on failure) and the
    error. *)
Definition Dial (address : string) : M (option Conn * option error) :=
  emit (EvDial address) ;;
  fun c w =>
    match network w with
    | [] => (Stuck, c, w)
    | DialOk cn :: rest =>
        (Done (Some cn, None), c, mkWorld (trace w) (logged w) rest)
    | DialErr e :: rest =>
        (Done (None, Some e), c, mkWorld (trace w) (logged w) rest)
    end.

(** Lines 47-58 of [Connect]: the two registration lines, then [loop],
    the read loop it ends in. *)
Definition register (loop : M (option error)) : M (option error) :=
  c <- getClient ;;
  err <- Sendf "USER %s * * :%s" [VString (user c); VString (realName c)] ;;
  match err with
  | Some e => ret (Some e)
  | None =>
      c <- getClient ;;
      err <- Nick (currentNick c) ;;
      match err with
      | Some e => ret (Some e)
      | None => loop
      end
  end.

(** The body of [Connect]. *)
Definition Connect_body (loop : M (option error)) : M (option error) :=
  c <- getClient ;;
  if match conn c with None => true | Some _ => false end && (addr c =? "")
  then ret (Some (Errorf "no conn or addr found, use WithConn or WithAddr"))
  else if nick c =? ""
  then ret (Some (Errorf "no nick set, use WithNick to set the nick"))
  else
    modify (with_currentNick (nick c)) ;;
    (if user c =? "" then modify (with_user (nick c)) else ret tt) ;;
    (if realName c =? "" then modify (with_realName (nick c)) else ret tt) ;;
    err <- match conn c with
           | None =>
               r <- Dial (addr c) ;;
               modify (with_conn (fst r)) ;;
               ret (snd r)
           | Some _ => ret None
           end ;;
    match err with
    | Some e => ret (Some e)
    | None => register loop
    end.

(** The [for i := 0; i < 10; i++] loop of [reconnect], with [n] turns
    left and [rt] the delay of the next one; [Connect] is the method it
    calls. *)
Fixpoint reconnect_attempts (Connect : M (option error)) (n : nat) (rt : Z)
    : M (option error) :=
  match n with
  | 0 => ret (Some (Errorf "unable to reconnect, giving up"))
  | S n' =>
      log "connection closed, trying to reconnect in %d seconds"
          [VInt (Z.quot rt Second)] ;;
      Sleep rt ;;
      err <- Connect ;;
      match err with
      | None => ret None
      | Some e =>
          log (Error e) [] ;;
          reconnect_attempts Connect n' (wrap64 (rt * 2))
      end
  end.

Definition reconnect (Connect : M (option error)) : M (option error) :=
  conn_Close ;;
  modify (with_conn None) ;;
  reconnect_attempts Connect 10 (5 * Second)%Z.

(** The reader of [loop] has consumed an input of the connection, which
    holds [rest] from now on. *)
Definition advanced (rest : list input) (c : Client) : Client :=
  match conn c with
  | None => c
  | Some cn => with_conn (Some (mkConn rest (wouts cn))) c
  end.

Definition advance (rest : list input) : M unit := modify (advanced rest).

(** The [for { select ... }] of [loop], over what the connection still
    holds for the reader; [reconnect] is the method the [reconnect:] label
    calls. *)
Fixpoint loop_on (reconnect : M (option error)) (fd : list input)
    : M (option error) :=
  match fd with
  | [] => stuck
  | Quit :: rest =>
      advance rest ;;
      conn_Close ;;
      ret None
  | Line l err :: rest =>
      advance rest ;;
      emit (EvReadLine l err) ;;
      log l [] ;;
      match err with
      | Some EOF => reconnect
      | Some e => ret (Some e)
      | None =>
          match parse l with
          | (_, Some e) =>
              log (Error e) [] ;;
              loop_on reconnect rest
          | (None, None) => panic
          | (Some m, None) =>
              emit (EvPublish (Command m) m) ;;
              emit (EvPublish "*" m) ;;
              loop_on reconnect rest
          end
      end
  end.

Definition loop (reconnect : M (option error)) : M (option error) :=
  c <- getClient ;;
  match conn c with
  | None => panic
  | Some cn => loop_on reconnect (feed cn)
  end.

(** [Connect], [loop] and [reconnect] call one another; [fuel] bounds how
    deep [Connect] may nest inside [reconnect] inside [loop]. *)
Fixpoint Connect (fuel : nat) : M (option error) :=
  match fuel with
  | 0 => fun c w => (OutOfFuel, c, w)
  | S fuel' => Connect_body (loop (reconnect (Connect fuel')))
  end.

End Connection.

(** ** The formatter and a parser for the examples *)

(** [fmt.Sprintf] on the formats this package writes: the verbs [%s] and
    [%v] print a string operand as it is, [%d] and [%v] print a whole
    number in decimal, [%%] prints a percent sign, every other byte of the
    format prints itself.  Go's notes for a verb without operand, for
    operands left over, for a percent sign that ends the format and for an
    operand of the wrong kind are as [fmt] prints them.  Flags, widths and
    the remaining verbs are outside of what is modelled (they are taken
    for verbs of the wrong kind); no statement below rests on them. *)
Definition type_name (a : value) : string :=
  match a with
  | VString _ => "string"
  | VInt _ => "int"
  end.

Definition plain (a : value) : string :=
  match a with
  | VString s => s
  | VInt n => NilZero.string_of_int (Z.to_int n)
  end.

Definition bad_verb (v : ascii) (a : value) : string :=
  "%!" ++ String v ("(" ++ type_name a ++ "=" ++ plain a ++ ")").

Definition format_verb (v : ascii) (a : value) : string :=
  match a with
  | VString s =>
      if Ascii.eqb v "s" || Ascii.eqb v "v" then s else bad_verb v a
  | VInt n =>
      if Ascii.eqb v "d" || Ascii.eqb v "v" then plain a else bad_verb v a
  end.

Fixpoint extra_operands (args : list value) : string :=
  match args with
  | [] => ""
  | [a] => type_name a ++ "=" ++ plain a
  | a :: args' => type_name a ++ "=" ++ plain a ++ ", " ++ extra_operands args'
  end.

Definition extra (args : list value) : string :=
  match args with
  | [] => ""
  | _ => "%!(EXTRA " ++ extra_operands args ++ ")"
  end.

Fixpoint go_format (format : string) (args : list value) : string :=
  match format with
  | EmptyString => extra args
  | String c rest =>
      if Ascii.eqb c "%" then
        match rest with
        | EmptyString => "%!(NOVERB)" ++ extra args
        | String v rest' =>
            if Ascii.eqb v "%" then String "%" (go_format rest' args)
            else match args with
                 | [] => "%!" ++ String v ("(MISSING)" ++ go_format rest' [])
                 | a :: args' => format_verb v a ++ go_format rest' args'
                 end
        end
      else String c (go_format rest args)
  end.

Definition go_Sprintf : Formatter := go_format.

(** A parser for the examples: on the lines of [messageTests] it answers
    what that table expects, given with or without their terminator; any
    other line it reports as malformed. *)
Fixpoint trim_eol (s : string) : string :=
  match s with
  | EmptyString => EmptyString
  | String a s' =>
      match trim_eol s' with
      | EmptyString => if Ascii.eqb a CR || Ascii.eqb a LF then EmptyString
                       else String a EmptyString
      | t => String a t
      end
  end.

Definition parse_tests : Parser := fun raw =>
  let l := trim_eol raw in
  if l =? "" then (None, None)
  else if l =? ":foo!~bar@127.0.0.1 JOIN :#foo" then
    (Some (mkMessage raw "JOIN" ":#foo" [":#foo"] "foo" "~bar" "127.0.0.1"), None)
  else if l =? ":irc.foo.com 372 foo :- *  foo" then
    (Some (mkMessage raw "372" "foo :- * foo" ["foo"; ":-"; "*"; "foo"]
             "irc.foo.com" "" ""), None)
  else if l =? "PING :irc.foo.com" then
    (Some (mkMessage raw "PING" ":irc.foo.com" [":irc.foo.com"] "" "" ""), None)
  else (None, Some (Err "malformed message")).

(** The byte occurs in the string. *)
Fixpoint has_byte (a : ascii) (s : string) : bool :=
  match s with
  | EmptyString => false
  | String b s' => Ascii.eqb b a || has_byte a s'
  end.

(** ** Clients and worlds of the examples *)

(** [n] copies of a byte. *)
Fixpoint replicate (n : nat) (a : ascii) : string :=
  match n with
  | 0 => EmptyString
  | S n' => String a (replicate n' a)
  end.

(** A transport with nothing to read on which every write succeeds. *)
Definition quiet_conn : Conn := mkConn [] [].

(** The client of [client_test.go]: [WithConn], nick [foo], user [bar],
    real name [foo bar]. *)
Definition test_client : Client :=
  mkClient (Some quiet_conn) "" "foo" "" "bar" "foo bar" false.

(** The same client with no transport. *)
Definition offline_client : Client :=
  mkClient None "" "foo" "" "bar" "foo bar" false.

(** A world in which nothing has happened and nobody answers a dial. *)
Definition fresh_world : World := mkWorld [] [] [].

(** A client that was given an address, and a network on which ten dials
    in a row are refused. *)
Definition redial_client : Client :=
  mkClient (Some quiet_conn) "irc.example.net:6667" "foo" "foo" "bar" "foo bar" false.

Definition refusing_world : World :=
  mkWorld [] [] (repeat (DialErr (Err "connection refused")) 10).

(** A transport that delivers a [PING], a line without command and a
    [JOIN]. *)
Definition chatty_conn : Conn :=
  mkConn [Line "PING :irc.foo.com" None; Line "foo:" None;
          Line ":foo!~bar@127.0.0.1 JOIN :#foo" None] [].

(** The test client on a transport that delivers a [PING] and then
    breaks: the next read fails, and not with end-of-stream. *)
Definition broken_conn : Conn :=
  mkConn [Line "PING :irc.foo.com" None;
          Line "" (Some (Err "connection reset by peer"))] [].

Definition broken_client : Client :=
  mkClient (Some broken_conn) "" "foo" "" "bar" "foo bar" false.

(** A client as [Connect] leaves it when it enters the read loop, and
    the world with the two registration lines written. *)
Definition registered (cn : Conn) : Client :=
  mkClient (Some cn) "" "foo" "foo" "bar" "foo bar" false.

Definition registered_world : World :=
  mkWorld [EvWrite ("USER bar * * :foo bar" ++ eol); EvWrite ("NICK foo" ++ eol)] [] [].

(** A network that refuses two dials and answers the third with a
    transport on which the quit signal is the first thing to arrive. *)
Definition third_time_world : World :=
  mkWorld [] [] [DialErr (Err "connection refused"); DialErr (Err "connection refused");
                 DialOk (mkConn [Quit] [])].

(** A client without nick, and one that holds [foo_] while it wants
    [foo]. *)
Definition nameless_client : Client :=
  mkClient (Some quiet_conn) "" "" "" "bar" "foo bar" false.

Definition displaced_client : Client :=
  mkClient (Some quiet_conn) "" "foo" "foo_" "bar" "foo bar" false.

(** A transport that delivers a [PING] before the quit signal arrives,
    and one on which the second write fails. *)
Definition quitting_conn : Conn :=
  mkConn [Line "PING :irc.foo.com" None; Quit] [].

Definition failing_conn : Conn :=
  mkConn [] [None; Some (Err "broken pipe")].

(** A client that has an address to dial and no transport yet. *)
Definition dialing_client : Client :=
  mkClient None "irc.example.net:6667" "foo" "" "" "" false.

(** A message of two words of 300 bytes each. *)
Definition two_long_words : string :=
  (replicate 300 "a" ++ " " ++ replicate 300 "b")%string.


(** The test client on a transport that the server closes at once. *)
Definition hangup_conn : Conn := mkConn [Line "" (Some EOF)] [].

Definition hangup_client : Client :=
  mkClient (Some hangup_conn) "" "foo" "" "bar" "foo bar" false.

(** A network that answers the next dial with a transport on which the
    first read fails, and not with end-of-stream. *)
Definition reset_conn : Conn :=
  mkConn [Line "" (Some (Err "connection reset by peer"))] [].

Definition reset_world : World := mkWorld [] [] [DialOk reset_conn].

(** ** Names for the states the statements speak of *)

Section States.
Context {F : Formatter}.

(** What a write leaves behind: its result and the connection's script. *)
Definition write_result (c : Client) : option error :=
  match conn c with
  | Some (mkConn _ (r :: _)) => r
  | _ => None
  end.

Definition after_write (c : Client) : Client :=
  match conn c with
  | Some (mkConn fd (_ :: rest)) => with_conn (Some (mkConn fd rest)) c
  | _ => c
  end.

Definition after_log (c : Client) (format : string) (args : list value) (w : World)
    : World :=
  world_of (log format args c w).

(** The identity fields as [Connect] seeds them (lines 28-38). *)
Definition seeded (c : Client) : Client :=
  let c := with_currentNick (nick c) c in
  let c := if user c =? "" then with_user (nick c) c else c in
  if realName c =? "" then with_realName (nick c) c else c.

(** The first [k] writes on the transport succeed. *)
Definition writes_succeed (k : nat) (cn : Conn) : Prop :=
  forall i, i < k -> nth i (wouts cn) None = None.

End States.

Section Runs.
Context {F : Formatter} {P : Parser}.

(** The world once [ReadLine] has returned [l] and [err] and the line
    has gone to the log. *)
Definition after_read (c : Client) (l : string) (err : option error) (w : World)
    : World :=
  after_log c l [] (mkWorld (trace w ++ [EvReadLine l err]) (logged w) (network w)).

(** What the read loop does with a line read without error: the read,
    then, for a line that parses to a message, the two publications. *)
Definition dispatch (l : string) : list event :=
  EvReadLine l None ::
  match parse l with
  | (Some m, None) => [EvPublish (Command m) m; EvPublish "*" m]
  | _ => []
  end.

(** A line read without error, as an input of the loop. *)
Definition good_line (l : string) : input := Line l None.

(** [parse] returns a message or an error for the line. *)
Definition parses (l : string) : Prop := parse l <> (None, None).

(** The delay before attempt [i] of [reconnect], counted from 1. *)
Definition delay_before (i : nat) : Z := (5 * Second * 2 ^ Z.of_nat (i - 1))%Z.

(** Attempt [i] of [reconnect]: the log line, the sleep, the call. *)
Definition attempt (Connect : M (option error)) (i : nat) : M (option error) :=
  log "connection closed, trying to reconnect in %d seconds"
      [VInt (Z.quot (delay_before i) Second)] ;;
  Sleep (delay_before i) ;;
  Connect.

(** [attempts_fail Connect k c w c' w']: from client [c] in world [w],
    attempts 1 to [k] were made one after the other, each returned an
    error, which was logged, and they left client [c'] in world [w']. *)
Inductive attempts_fail (Connect : M (option error))
    : nat -> Client -> World -> Client -> World -> Prop :=
| no_attempt c w : attempts_fail Connect 0 c w c w
| failed_attempt k c w c1 w1 e c2 w2 :
    attempts_fail Connect k c w c1 w1 ->
    attempt Connect (S k) c1 w1 = (Done (Some e), c2, w2) ->
    attempts_fail Connect (S k) c w c2 (after_log c2 (Error e) [] w2).

(** The world once the old transport has been closed. *)
Definition closed (w : World) : World :=
  mkWorld (trace w ++ [EvClose]) (logged w) (network w).

End Runs.

(** ** Notions for the statements on words, fields and fuel *)

(** The pieces put together again, with the separator between them. *)
Fixpoint Join (pieces : list string) (sep : ascii) : string :=
  match pieces with
  | [] => EmptyString
  | [p] => p
  | p :: ps => (p ++ String sep (Join ps sep))%string
  end.

(** The string is not empty. *)
Definition nonempty (s : string) : bool := negb (s =? "").

(** The words of a line that are not empty. *)
Definition words_of (msg : string) : list string :=
  filter nonempty (Split msg " ").

(** How often the byte occurs in the string. *)
Fixpoint count_byte (a : ascii) (s : string) : nat :=
  match s with
  | EmptyString => 0
  | String b s' => (if Ascii.eqb b a then 1 else 0) + count_byte a s'
  end.


(** The lines into which [Privmsg] packs a message that it splits. *)
Definition Privmsg_lines (cmd message : string) : list string :=
  fst (Privmsg_pack cmd (List.length (Split message " ")) 0 (Split message " ")
         [] EmptyString).

(** The delays of [n] turns of [reconnect]'s loop, the first being [rt]. *)
Fixpoint delays (n : nat) (rt : Z) : list Z :=
  match n with
  | 0 => []
  | S n' => rt :: delays n' (wrap64 (rt * 2))
  end.

(** The reads of a feed that return end-of-stream. *)
Fixpoint eofs (fd : list input) : nat :=
  match fd with
  | [] => 0
  | Line _ (Some EOF) :: rest => S (eofs rest)
  | _ :: rest => eofs rest
  end.

(** The ends-of-stream still to come: on the client's transport and on
    the transports the network will hand out. *)
Fixpoint dialled_eofs (net : list dial_result) : nat :=
  match net with
  | [] => 0
  | DialOk cn :: rest => eofs (feed cn) + dialled_eofs rest
  | DialErr _ :: rest => dialled_eofs rest
  end.

(** The ends-of-stream that a run from this state can still meet. *)
Definition pending (c : Client) (w : World) : nat :=
  match conn c with
  | Some cn => eofs (feed cn)
  | None => 0
  end + dialled_eofs (network w).

(** [m] never runs out of fuel from a state with at most [N]
    ends-of-stream to come, and it leaves no more of them than it found. *)
Definition settles (N : nat) {A} (m : M A) : Prop :=
  forall c w, pending c w <= N ->
    result_of (m c w) <> OutOfFuel
    /\ pending (client_of (m c w)) (world_of (m c w)) <= pending c w.

(** [m'] does what [m] does wherever [m] has fuel enough. *)
Definition refines {A} (m m' : M A) : Prop :=
  forall c w, result_of (m c w) <> OutOfFuel -> m' c w = m c w.

(** [m] takes every state to one that [R] relates to it. *)
Definition preserves (R : Client -> World -> Client -> World -> Prop) {A} (m : M A)
    : Prop :=
  forall c w, R c w (client_of (m c w)) (world_of (m c w)).


(** With debugging off the logger is not called. *)
Definition log_kept (c : Client) (w : World) (c' : Client) (w' : World) : Prop :=
  debug c' = debug c /\ (debug c = false -> logged w' = logged w).


(** ** Tactics for the runs of the examples *)

Ltac failed_attempts :=
  first [ apply no_attempt
        | eapply failed_attempt; [ failed_attempts | vm_compute; reflexivity ] ].

Ltac all_parse :=
  repeat constructor; intros E; vm_compute in E; discriminate.

(** * Properties *)

(** ** Strings *)

Lemma length_append (s t : string) :
  String.length (s ++ t) = String.length s + String.length t.
Proof. induction s as [|a s IH]; simpl; [reflexivity | now rewrite IH]. Qed.

Lemma length_substring_0 (n : nat) (s : string) :
  n <= String.length s -> String.length (substring 0 n s) = n.
Proof.
  revert s. induction n as [|n IH]; intros s Hn.
  - destruct s; reflexivity.
  - destruct s as [|a s]; simpl in *; [lia|].
    rewrite IH; [reflexivity | lia].
Qed.

Lemma length_eol : String.length eol = 2.
Proof. reflexivity. Qed.

(** ** Send framing *)

Section Framing.
Context {F : Formatter}.

Lemma truncate_short (s : string) :
  String.length s <= 510 -> truncate s = s.
Proof.
  intros H. unfold truncate.
  destruct (Nat.ltb_spec 510 (String.length s)); [lia | reflexivity].
Qed.

Lemma truncate_long (s : string) :
  510 < String.length s -> truncate s = (substring 0 510 s ++ eol)%string.
Proof.
  intros H. unfold truncate.
  destruct (Nat.ltb_spec 510 (String.length s)); [reflexivity | lia].
Qed.

Lemma length_truncate_long (s : string) :
  510 < String.length s -> String.length (truncate s) = 512.
Proof.
  intros H. rewrite (truncate_long s H), length_append, length_substring_0, length_eol; lia.
Qed.

Lemma length_truncate (s : string) : String.length (truncate s) <= 512.
Proof.
  destruct (Nat.le_gt_cases (String.length s) 510) as [H|H].
  - rewrite truncate_short; lia.
  - rewrite length_truncate_long; lia.
Qed.

Lemma trace_after_log c format args w : trace (after_log c format args w) = trace w.
Proof. unfold after_log, log. destruct (debug c && negb (format =? "")); reflexivity. Qed.

Lemma network_after_log c format args w :
  network (after_log c format args w) = network w.
Proof. unfold after_log, log. destruct (debug c && negb (format =? "")); reflexivity. Qed.

Lemma log_run c format args w :
  log format args c w = (Done tt, c, after_log c format args w).
Proof. unfold after_log, log. destruct (debug c && negb (format =? "")); reflexivity. Qed.

(** [Sendf] on an open transport: one [Write] of the truncated line. *)
Lemma Sendf_open format args c w cn :
  conn c = Some cn ->
  let s := truncate (Sprintf (format ++ eol) args) in
  let w1 := after_log c s [] w in
  Sendf format args c w =
    (Done (write_result c), after_write c,
     mkWorld (trace w1 ++ [EvWrite s]) (logged w1) (network w1)).
Proof.
  intros Hc s w1. unfold Sendf, bind at 1, getClient. rewrite Hc.
  fold s. unfold bind at 1. rewrite log_run. fold w1.
  unfold conn_Write, bind, getClient, emit, write_result, after_write.
  rewrite Hc. destruct cn as [fd [|r rest]]; reflexivity.
Qed.

(** [Sendf] on a [nil] connection. *)
Lemma Sendf_nil format args c w :
  conn c = None -> Sendf format args c w = (Done None, c, w).
Proof.
  intros Hc. unfold Sendf, bind, getClient. rewrite Hc. reflexivity.
Qed.

Lemma trace_Sendf format args c w :
  trace (world_of (Sendf format args c w))
  = trace w ++ match conn c with
               | Some _ => [EvWrite (truncate (Sprintf (format ++ eol) args))]
               | None => []
               end.
Proof.
  destruct (conn c) as [cn|] eqn:Hc.
  - rewrite (Sendf_open _ _ _ _ _ Hc). cbn. now rewrite trace_after_log.
  - rewrite Sendf_nil by assumption. cbn. now rewrite app_nil_r.
Qed.

Lemma client_Sendf format args c w :
  client_of (Sendf format args c w) = after_write c.
Proof.
  destruct (conn c) as [cn|] eqn:Hc.
  - now rewrite (Sendf_open _ _ _ _ _ Hc).
  - rewrite Sendf_nil by assumption. unfold after_write. now rewrite Hc.
Qed.

Lemma write_result_nth c cn :
  conn c = Some cn -> write_result c = nth 0 (wouts cn) None.
Proof. unfold write_result. intros ->. destruct cn as [fd [|r rest]]; reflexivity. Qed.

Lemma conn_after_write c cn :
  conn c = Some cn -> conn (after_write c) = Some (mkConn (feed cn) (tl (wouts cn))).
Proof.
  unfold after_write. intros Hc. rewrite Hc.
  destruct cn as [fd [|r rest]]; cbn; [exact Hc | reflexivity].
Qed.

Lemma fields_after_write c :
  addr (after_write c) = addr c /\ nick (after_write c) = nick c
  /\ currentNick (after_write c) = currentNick c /\ user (after_write c) = user c
  /\ realName (after_write c) = realName c /\ debug (after_write c) = debug c.
Proof.
  unfold after_write.
  destruct (conn c) as [[fd [|r rest]]|]; cbn; repeat split; reflexivity.
Qed.

(** C8. [Sendf] called while no transport is open returns no error and
    does nothing at all: nothing is written, nothing is logged, no field
    of the client changes; this for every format string and operands, and
    whatever the formatter. *)
Theorem Sendf_without_conn (format : string) (args : list value) (c : Client) (w : World) :
  conn c = None ->
  let r := Sendf format args c w in
  r = (Done None, c, w)
  /\ writes (trace (world_of r)) = writes (trace w).
Proof.
  intros Hc r. subst r. rewrite Sendf_nil by assumption. split; reflexivity.
Qed.

(** C1, as the code has it.  The line [Sendf] writes is at most 512 bytes
    long, terminator included: a formatted string of at most 510 bytes
    (with its terminator) is written as it is, and a longer one is cut so
    that the line fits the cap of 512 bytes, 510 bytes followed by CR LF.
    One call writes at most that one line. *)
Theorem Sendf_line_at_most_512 (format : string) (args : list value) (c : Client) (w : World) :
  let s := Sprintf (format ++ eol) args in
  let t := trace (world_of (Sendf format args c w)) in
  (t = trace w \/ t = trace w ++ [EvWrite (truncate s)])
  /\ String.length (truncate s) <= 512
  /\ (String.length s <= 510 -> truncate s = s)
  /\ (510 < String.length s ->
      truncate s = (substring 0 510 s ++ eol)%string
      /\ String.length (truncate s) = 512).
Proof.
  intros s t. repeat split.
  - subst t. rewrite trace_Sendf. destruct (conn c) as [cn|].
    + now right.
    + left. apply app_nil_r.
  - apply length_truncate.
  - apply truncate_short.
  - now apply truncate_long.
  - now apply length_truncate_long.
Qed.

End Framing.

(** ** Message splitting *)

Section Splitting.
Context {F : Formatter}.

Lemma writes_app t1 t2 : writes (t1 ++ t2) = writes t1 ++ writes t2.
Proof. unfold writes. apply flat_map_app. Qed.

Lemma Split_not_nil s sep : Split s sep <> [].
Proof.
  destruct s as [|a s]; cbn; [discriminate|].
  destruct (Ascii.eqb a sep); [discriminate|].
  destruct (Split s sep); discriminate.
Qed.

Lemma Split_one s sep : has_byte sep s = false -> Split s sep = [s].
Proof.
  induction s as [|a s IH]; cbn; [reflexivity|].
  intros H. apply orb_false_iff in H as [Ha Hs].
  rewrite Ha, (IH Hs). reflexivity.
Qed.

Lemma Split_last body w sep :
  has_byte sep w = false ->
  Split (body ++ String sep w) sep = Split body sep ++ [w].
Proof.
  intros Hw. induction body as [|a b IH]; cbn.
  - rewrite Ascii.eqb_refl, (Split_one _ _ Hw). reflexivity.
  - destruct (Ascii.eqb a sep).
    + now rewrite IH.
    + rewrite IH. pose proof (Split_not_nil b sep).
      destruct (Split b sep) as [|p ps]; [congruence | reflexivity].
Qed.

Lemma Privmsg_pack_last cmd n ws : forall i msgs msg last,
  i + List.length ws = n - 1 ->
  Privmsg_pack cmd n i (ws ++ [last]) msgs msg
  = (fst (Privmsg_pack cmd n i ws msgs msg) ++ [snd (Privmsg_pack cmd n i ws msgs msg)],
     last).
Proof.
  induction ws as [|w ws IH]; intros i msgs msg last Hi.
  - cbn in Hi. cbn. replace (i =? n - 1)%nat with true by (symmetry; apply Nat.eqb_eq; lia).
    rewrite orb_true_r. reflexivity.
  - cbn [app Privmsg_pack].
    destruct ((510 <=? String.length cmd + String.length msg + String.length w + 1)%nat
              || (i =? n - 1)%nat);
      apply IH; cbn in Hi; lia.
Qed.

(** What [Privmsg] does with a message that it splits does not depend
    on the last word of the message: the packing loop puts the last word
    in [msg] after the last append to [msgs], and [msg] is not appended
    again. *)
Theorem Privmsg_ignores_last_word (target body w1 w2 : string) (c : Client) (w : World) :
  has_byte " " w1 = false -> has_byte " " w2 = false ->
  let cmd := Sprintf "PRIVMSG %s :" [VString target] in
  510 < String.length cmd + String.length (body ++ " " ++ w1) ->
  510 < String.length cmd + String.length (body ++ " " ++ w2) ->
  Privmsg target (body ++ " " ++ w1) c w = Privmsg target (body ++ " " ++ w2) c w.
Proof.
  intros H1 H2 cmd L1 L2. unfold Privmsg. fold cmd.
  destruct (Nat.leb_spec (String.length cmd + String.length (body ++ " " ++ w1)) 510); [lia|].
  destruct (Nat.leb_spec (String.length cmd + String.length (body ++ " " ++ w2)) 510); [lia|].
  change (body ++ " " ++ w1)%string with (body ++ String " " w1)%string.
  change (body ++ " " ++ w2)%string with (body ++ String " " w2)%string.
  rewrite !Split_last by assumption.
  rewrite !length_app. cbn [List.length].
  rewrite !Privmsg_pack_last by lia. reflexivity.
Qed.

(** X2. The lines of a split message are sent in order until a write fails:
    the lines after the failed one are not sent, and the error of the
    failed write is the result. *)
Theorem Privmsg_send_stops (cmd : string) (sent : list string) (m : string)
    (rest : list string) (e : error) (tail : list (option error)) :
  forall (c : Client) (w : World) (cn : Conn),
  conn c = Some cn ->
  wouts cn = repeat None (List.length sent) ++ Some e :: tail ->
  let r := Privmsg_send cmd (sent ++ m :: rest) c w in
  result_of r = Done (Some e)
  /\ writes (trace (world_of r))
     = writes (trace w)
       ++ map (fun m => truncate (Sprintf ("%s%s" ++ eol) [VString cmd; VString m]))
            (sent ++ [m]).
Proof.
  induction sent as [|m0 sent IH]; intros c w cn Hc Hw r; subst r.
  - cbn [app Privmsg_send]. unfold bind. rewrite (Sendf_open _ _ _ _ _ Hc).
    rewrite (write_result_nth _ _ Hc), Hw. cbn.
    rewrite trace_after_log, writes_app. split; reflexivity.
  - cbn [app Privmsg_send]. unfold bind. rewrite (Sendf_open _ _ _ _ _ Hc).
    rewrite (write_result_nth _ _ Hc), Hw. cbn [List.length repeat app nth].
    pose proof (conn_after_write _ _ Hc) as Hc1.
    edestruct (IH (after_write c)) as (R & T); [exact Hc1 | rewrite Hw; reflexivity |].
    cbn zeta in R, T. rewrite R, T. cbn [trace].
    rewrite trace_after_log, writes_app. cbn. rewrite <- app_assoc. split; reflexivity.
Qed.

End Splitting.

(** ** Connect *)

Section Session.
Context {F : Formatter} {P : Parser}.

(** C6. [Connect] fails at once, with an error that says what is missing,
    when neither a transport nor an address is configured, and likewise
    when no nick is configured.  It returns before anything else happens:
    nothing is sent, no field of the client changes (the nick, user and
    real-name fields among them), the world is as it was. *)
Theorem Connect_config_errors (fuel : nat) (c : Client) (w : World) :
  (conn c = None -> addr c = "" ->
   Connect (S fuel) c w
   = (Done (Some (Err "no conn or addr found, use WithConn or WithAddr")), c, w))
  /\ (nick c = "" -> (conn c <> None \/ addr c <> "") ->
      Connect (S fuel) c w
      = (Done (Some (Err "no nick set, use WithNick to set the nick")), c, w))
  /\ (nick c = "" ->
      exists msg, Connect (S fuel) c w = (Done (Some (Err msg)), c, w)).
Proof.
  assert (H1 : conn c = None -> addr c = "" ->
   Connect (S fuel) c w
   = (Done (Some (Err "no conn or addr found, use WithConn or WithAddr")), c, w)).
  { intros Hc Ha. cbn [Connect]. unfold Connect_body, bind at 1, getClient.
    rewrite Hc, Ha. reflexivity. }
  assert (H2 : nick c = "" -> (conn c <> None \/ addr c <> "") ->
      Connect (S fuel) c w
      = (Done (Some (Err "no nick set, use WithNick to set the nick")), c, w)).
  { intros Hn Ht. cbn [Connect]. unfold Connect_body, bind at 1, getClient.
    rewrite Hn.
    destruct (conn c) as [cn|]; [reflexivity|].
    destruct Ht as [Ht|Ht]; [congruence|].
    apply String.eqb_neq in Ht. rewrite Ht. reflexivity. }
  repeat split; try assumption.
  intros Hn. destruct (conn c) as [cn|] eqn:Hc.
  - eexists. apply H2; [assumption | left; congruence].
  - destruct (String.string_dec (addr c) "") as [Ha|Ha].
    + eexists. now apply H1.
    + eexists. apply H2; [assumption | now right].
Qed.

Lemma seeded_fields c :
  conn (seeded c) = conn c /\ addr (seeded c) = addr c /\ nick (seeded c) = nick c
  /\ currentNick (seeded c) = nick c
  /\ user (seeded c) = (if user c =? "" then nick c else user c)
  /\ realName (seeded c) = (if realName c =? "" then nick c else realName c).
Proof.
  unfold seeded. cbn.
  destruct (user c =? ""); cbn; destruct (realName c =? ""); cbn; repeat split; reflexivity.
Qed.

(** With a transport at hand and a nick configured, [Connect] seeds the
    identity fields and goes on to register. *)
Lemma Connect_body_open lp (c : Client) (w : World) cn :
  conn c = Some cn -> nick c <> "" ->
  Connect_body lp c w = register lp (seeded c) w.
Proof.
  intros Hc Hn. unfold Connect_body, bind at 1, getClient.
  rewrite Hc. cbn [andb]. apply String.eqb_neq in Hn. rewrite Hn.
  unfold seeded, bind, modify, ret. cbn.
  destruct (user c =? ""); cbn; destruct (realName c =? ""); reflexivity.
Qed.

(** Without one, it dials; the connection it gets becomes the client's. *)
Lemma Connect_body_dial lp (c : Client) (w : World) cn rest :
  conn c = None -> addr c <> "" -> nick c <> "" ->
  network w = DialOk cn :: rest ->
  Connect_body lp c w
  = register lp (with_conn (Some cn) (seeded c))
      (mkWorld (trace w ++ [EvDial (addr c)]) (logged w) rest).
Proof.
  intros Hc Ha Hn Hw. unfold Connect_body, bind at 1, getClient.
  rewrite Hc. apply String.eqb_neq in Ha, Hn. rewrite Ha, Hn. cbn [andb].
  unfold seeded, Dial, bind, modify, ret, emit. cbn.
  destruct (user c =? ""); cbn; destruct (realName c =? ""); cbn; rewrite Hw; reflexivity.
Qed.

Lemma Connect_body_dial_error lp (c : Client) (w : World) e rest :
  conn c = None -> addr c <> "" -> nick c <> "" ->
  network w = DialErr e :: rest ->
  Connect_body lp c w
  = (Done (Some e), seeded c,
      mkWorld (trace w ++ [EvDial (addr c)]) (logged w) rest).
Proof.
  intros Hc Ha Hn Hw. unfold Connect_body, bind at 1, getClient.
  rewrite Hc. apply String.eqb_neq in Ha, Hn. rewrite Ha, Hn. cbn [andb].
  unfold seeded, Dial, bind, modify, ret, emit. cbn.
  destruct (user c =? ""); cbn; destruct (realName c =? ""); cbn; rewrite Hw; cbn.
  all: destruct c; cbn in *; subst; reflexivity.
Qed.

(** X4. A dial that fails ends [Connect] with the error of the dial:
    nothing is sent and the client has no transport. *)
Theorem Connect_dial_error (fuel : nat) (c : Client) (w : World) (e : error)
    (rest : list dial_result) :
  conn c = None -> addr c <> "" -> nick c <> "" ->
  network w = DialErr e :: rest ->
  let r := Connect (S fuel) c w in
  result_of r = Done (Some e)
  /\ conn (client_of r) = None
  /\ trace (world_of r) = trace w ++ [EvDial (addr c)].
Proof.
  intros Hc Ha Hn Hw r. subst r. cbn [Connect].
  rewrite (Connect_body_dial_error _ _ _ _ _ Hc Ha Hn Hw). cbn.
  destruct (seeded_fields c) as (Sc & _). rewrite Sc, Hc. repeat split; reflexivity.
Qed.

(** The two registration lines, when both writes succeed. *)
Lemma register_runs (lp : M (option error)) (c : Client) (w : World) cn :
  conn c = Some cn -> writes_succeed 2 cn ->
  exists w2,
    register lp c w = lp (after_write (after_write c)) w2
    /\ trace w2 = trace w ++
         [EvWrite (truncate (Sprintf ("USER %s * * :%s" ++ eol)
                               [VString (user c); VString (realName c)]));
          EvWrite (truncate (Sprintf ("NICK %s" ++ eol) [VString (currentNick c)]))]
    /\ network w2 = network w.
Proof.
  intros Hc Hw.
  pose proof (conn_after_write c cn Hc) as Hc1.
  unfold register, bind at 1, getClient.
  unfold bind at 1. rewrite (Sendf_open _ _ _ _ _ Hc).
  rewrite (write_result_nth _ _ Hc), (Hw 0) by lia.
  unfold bind at 1, getClient. unfold bind at 1, Nick.
  rewrite (Sendf_open _ _ _ _ _ Hc1).
  rewrite (write_result_nth _ _ Hc1). cbn [wouts].
  replace (nth 0 (tl (wouts cn)) None) with (nth 1 (wouts cn) None)
    by (destruct (wouts cn) as [|r [|r' rest]]; reflexivity).
  rewrite (Hw 1) by lia.
  eexists. split; [reflexivity|]. cbn [trace network].
  rewrite !trace_after_log, !network_after_log. cbn [trace network].
  rewrite <- app_assoc.
  destruct (fields_after_write c) as (_ & _ & -> & _). split; reflexivity.
Qed.

End Session.

(** ** The read loop *)

Section ReadLoop.
Context {F : Formatter} {P : Parser}.

Lemma advanced_advanced r1 r2 c : advanced r2 (advanced r1 c) = advanced r2 c.
Proof.
  unfold advanced.
  destruct (conn c) as [cn|] eqn:Hc; cbn; [reflexivity | now rewrite Hc].
Qed.

Lemma trace_after_read c l err w :
  trace (after_read c l err w) = trace w ++ [EvReadLine l err].
Proof. unfold after_read. now rewrite trace_after_log. Qed.

Lemma network_after_read c l err w : network (after_read c l err w) = network w.
Proof. unfold after_read. now rewrite network_after_log. Qed.

(** One turn of the loop on a line that [ReadLine] returned. *)
Lemma loop_on_read (k : M (option error)) l err rest (c : Client) (w : World) :
  loop_on k (Line l err :: rest) c w =
  let c1 := advanced rest c in
  let w1 := after_read c1 l err w in
  match err with
  | Some EOF => k c1 w1
  | Some e => (Done (Some e), c1, w1)
  | None =>
      match parse l with
      | (_, Some e) => loop_on k rest c1 (after_log c1 (Error e) [] w1)
      | (None, None) => (Panic, c1, w1)
      | (Some m, None) =>
          loop_on k rest c1
            (mkWorld (trace w1 ++ [EvPublish (Command m) m; EvPublish "*" m])
               (logged w1) (network w1))
      end
  end.
Proof.
  cbn [loop_on]. unfold bind at 1, advance, modify.
  unfold bind at 1, emit. unfold bind at 1. rewrite log_run.
  unfold after_read. cbn zeta.
  destruct err as [[|msg]|]; try reflexivity.
  destruct (parse l) as [[m|] [e|]]; try reflexivity.
  - unfold bind at 1. rewrite log_run. reflexivity.
  - unfold bind, emit. cbn. rewrite <- app_assoc. reflexivity.
  - unfold bind at 1. rewrite log_run. reflexivity.
Qed.

(** The loop over lines that are read without error and that [parse]
    answers with a message or an error: each line leaves its [dispatch]
    in the trace and the loop goes on with what follows. *)
Lemma loop_on_lines (k : M (option error)) ls fd (c : Client) (w : World) :
  Forall parses ls ->
  exists c' w',
    loop_on k (map good_line ls ++ fd) c w = loop_on k fd c' w'
    /\ trace w' = trace w ++ flat_map dispatch ls
    /\ network w' = network w
    /\ (ls = [] -> c' = c) /\ (ls <> [] -> c' = advanced fd c).
Proof.
  intros H. revert c w. induction H as [|l ls Hl Hls IH]; intros c w.
  - exists c, w. cbn. rewrite app_nil_r. repeat split; congruence.
  - cbn [map app]. unfold good_line at 1. rewrite loop_on_read. cbn zeta.
    set (c1 := advanced (map good_line ls ++ fd) c).
    set (w1 := after_read c1 l None w).
    assert (Hc' : forall c', (ls = [] -> c' = c1) -> (ls <> [] -> c' = advanced fd c1) ->
                  c' = advanced fd c).
    { intros c' H1 H2. destruct ls as [|l' ls'].
      - rewrite H1 by reflexivity. reflexivity.
      - rewrite H2 by discriminate. apply advanced_advanced. }
    unfold parses in Hl. unfold dispatch at 1. cbn [flat_map].
    destruct (parse l) as [[m|] [e|]]; [ | | | congruence].
    + destruct (IH c1 (after_log c1 (Error e) [] w1)) as (c' & w' & E & T & N & C1 & C2).
      exists c', w'. rewrite E, T, N, trace_after_log, network_after_log.
      subst w1. rewrite trace_after_read, network_after_read. cbn.
      rewrite <- app_assoc. repeat split; try reflexivity; [discriminate | auto].
    + destruct (IH c1 (mkWorld (trace w1 ++ [EvPublish (Command m) m; EvPublish "*" m])
               (logged w1) (network w1))) as (c' & w' & E & T & N & C1 & C2).
      exists c', w'. rewrite E, T, N. cbn.
      subst w1. rewrite trace_after_read, network_after_read. cbn.
      rewrite <- !app_assoc. repeat split; try reflexivity; [discriminate | auto].
    + destruct (IH c1 (after_log c1 (Error e) [] w1)) as (c' & w' & E & T & N & C1 & C2).
      exists c', w'. rewrite E, T, N, trace_after_log, network_after_log.
      subst w1. rewrite trace_after_read, network_after_read. cbn.
      rewrite <- app_assoc. repeat split; try reflexivity; [discriminate | auto].
Qed.

Lemma loop_feed (k : M (option error)) (c : Client) (w : World) cn :
  conn c = Some cn -> loop k c w = loop_on k (feed cn) c w.
Proof. intros Hc. unfold loop, bind, getClient. now rewrite Hc. Qed.

(** C4. In the read loop a read that returns end-of-stream hands over
    to the reconnect procedure, whose result is the result of [Connect];
    a read that returns any other error ends the loop, and that error is
    what [Connect] returns; a line read without error that [parse]
    rejects goes to the log, nothing is published for it, and the loop
    goes on with the next input.  This holds at any point of a session:
    [ls] are the lines read before, [c0] and [w0] the state in which
    [Connect] was called, [c] and [w] the state in which it entered the
    loop. *)
Theorem read_errors (fuel : nat) (c0 : Client) (w0 : World) (c : Client) (w : World)
    (cn : Conn) (ls : list string) (l : string) (err : option error) (rest : list input) :
  Connect (S fuel) c0 w0 = loop (reconnect (Connect fuel)) c w ->
  conn c = Some cn ->
  feed cn = map good_line ls ++ Line l err :: rest ->
  Forall parses ls ->
  exists c1 w1,
    trace w1 = trace w ++ flat_map dispatch ls ++ [EvReadLine l err]
    /\ (err = Some EOF ->
        Connect (S fuel) c0 w0 = reconnect (Connect fuel) c1 w1)
    /\ (forall msg, err = Some (Err msg) ->
        Connect (S fuel) c0 w0 = (Done (Some (Err msg)), c1, w1))
    /\ (forall m e, err = None -> parse l = (m, Some e) ->
        exists w2,
          Connect (S fuel) c0 w0 = loop_on (reconnect (Connect fuel)) rest c1 w2
          /\ w2 = after_log c1 (Error e) [] w1
          /\ trace w2 = trace w1).
Proof.
  intros Hloop Hc Hfeed Hls. rewrite Hloop, (loop_feed _ _ _ _ Hc), Hfeed.
  destruct (loop_on_lines (reconnect (Connect fuel)) ls (Line l err :: rest) c w Hls)
    as (c' & w' & E & T & _).
  rewrite E, loop_on_read. cbn zeta.
  exists (advanced rest c'), (after_read (advanced rest c') l err w').
  rewrite trace_after_read, T, <- app_assoc.
  split; [reflexivity|]. split; [|split].
  - intros ->. reflexivity.
  - intros msg ->. reflexivity.
  - intros m e -> Hp. rewrite Hp. eexists. split; [|split]; try reflexivity.
    + destruct m; reflexivity.
    + now rewrite trace_after_log, trace_after_read, T, <- app_assoc.
Qed.

(** C5. Every line read without error that parses to a message is
    published twice, first under the message's [Command] and then under
    the wildcard name, and both publications come before the next read:
    over the lines [ls] the loop leaves in the trace, line after line,
    the read followed by the two publications (by nothing for a line
    that [parse] rejects), and it goes on with what follows; when
    nothing follows, that is the whole trace of the loop. *)
Theorem loop_publishes (k : M (option error)) (c : Client) (w : World) (cn : Conn)
    (ls : list string) (fd : list input) :
  conn c = Some cn ->
  feed cn = map good_line ls ++ fd ->
  Forall parses ls ->
  (exists c' w',
     loop k c w = loop_on k fd c' w'
     /\ trace w' = trace w ++ flat_map dispatch ls)
  /\ (forall l m, parse l = (Some m, None) ->
      dispatch l = [EvReadLine l None; EvPublish (Command m) m; EvPublish "*" m])
  /\ (forall l m e, parse l = (m, Some e) -> dispatch l = [EvReadLine l None])
  /\ (fd = [] ->
      trace (world_of (loop k c w)) = trace w ++ flat_map dispatch ls).
Proof.
  intros Hc Hfeed Hls. split; [|split; [|split]].
  - rewrite (loop_feed _ _ _ _ Hc), Hfeed.
    destruct (loop_on_lines k ls fd c w Hls) as (c' & w' & E & T & _).
    now exists c', w'.
  - intros l m Hp. unfold dispatch. now rewrite Hp.
  - intros l m e Hp. unfold dispatch. rewrite Hp. now destruct m.
  - intros ->. rewrite (loop_feed _ _ _ _ Hc), Hfeed.
    destruct (loop_on_lines k ls [] c w Hls) as (c' & w' & E & T & _).
    rewrite E. exact T.
Qed.
Lemma conn_advanced r c cn :
  conn c = Some cn -> conn (advanced r c) = Some (mkConn r (wouts cn)).
Proof. unfold advanced. intros ->. reflexivity. Qed.

Lemma loop_on_quit (k : M (option error)) rest (c : Client) (w : World) cn :
  conn c = Some cn ->
  loop_on k (Quit :: rest) c w = (Done None, advanced rest c, closed w).
Proof.
  intros Hc. destruct c as [co a n cur u r d]. cbn in Hc. subst co. reflexivity.
Qed.

(** X1. When the quit channel is ready at the top of a turn, the loop
    closes the transport and returns without error, the lines read before
    having been dispatched. *)
Theorem loop_quit (k : M (option error)) (c : Client) (w : World) (cn : Conn)
    (ls : list string) (rest : list input) :
  conn c = Some cn ->
  feed cn = map good_line ls ++ Quit :: rest ->
  Forall parses ls ->
  result_of (loop k c w) = Done None
  /\ trace (world_of (loop k c w)) = trace w ++ flat_map dispatch ls ++ [EvClose].
Proof.
  intros Hc Hfeed Hls. rewrite (loop_feed _ _ _ _ Hc), Hfeed.
  destruct (loop_on_lines k ls (Quit :: rest) c w Hls) as (c' & w' & E & T & _ & C1 & C2).
  assert (Hc' : exists cn', conn c' = Some cn').
  { destruct ls as [|l ls'].
    - rewrite C1 by reflexivity. eauto.
    - rewrite C2 by discriminate. rewrite (conn_advanced _ _ _ Hc). eauto. }
  destruct Hc' as (cn' & Hc').
  rewrite E, (loop_on_quit _ _ _ _ _ Hc'). cbn.
  rewrite T, <- app_assoc. split; reflexivity.
Qed.

(** X5. A line for which [parse] returns neither a message nor an error
    (as [messageTests] expects of the empty line) makes the loop
    dereference [nil] in [m.Command]: it panics. *)
Theorem loop_nil_message (k : M (option error)) (l : string) (rest : list input)
    (c : Client) (w : World) :
  parse l = (None, None) ->
  result_of (loop_on k (Line l None :: rest) c w) = Panic.
Proof.
  intros Hp. rewrite loop_on_read. cbn zeta. rewrite Hp. reflexivity.
Qed.

End ReadLoop.

(** ** The reconnect procedure *)

Section Reconnect.
Context {F : Formatter} {P : Parser}.

Lemma delay_before_next (i : nat) :
  1 <= i <= 10 -> wrap64 (delay_before i * 2) = delay_before (S i).
Proof.
  intros [H1 H2].
  do 11 (destruct i as [|i]; [try lia; try reflexivity|]). lia.
Qed.

Lemma reconnect_attempts_step (Connect : M (option error)) n i (c : Client) (w : World) :
  reconnect_attempts Connect (S n) (delay_before i) c w =
  match attempt Connect i c w with
  | (Done None, c', w') => (Done None, c', w')
  | (Done (Some e), c', w') =>
      reconnect_attempts Connect n (wrap64 (delay_before i * 2)) c' (after_log c' (Error e) [] w')
  | (Panic, c', w') => (Panic, c', w')
  | (Stuck, c', w') => (Stuck, c', w')
  | (OutOfFuel, c', w') => (OutOfFuel, c', w')
  end.
Proof.
  cbn [reconnect_attempts]. unfold attempt, bind, Sleep, emit.
  rewrite !log_run.
  destruct (Connect c _) as [[[[e|]| | |] c'] w']; try reflexivity.
  rewrite log_run. reflexivity.
Qed.

Lemma reconnect_attempts_failed (Connect : M (option error)) k :
  forall m (c : Client) (w : World) c1 w1,
  k + m <= 10 ->
  attempts_fail Connect k c w c1 w1 ->
  reconnect_attempts Connect (k + m) (delay_before 1) c w
  = reconnect_attempts Connect m (delay_before (S k)) c1 w1.
Proof.
  induction k as [|k IH]; intros m c w c1 w1 Hk H.
  - inversion H; subst. reflexivity.
  - inversion H as [|k' c' w' c2 w2 e c3 w3 Hprev Hatt]; subst.
    replace (S k + m) with (k + S m) by lia.
    rewrite (IH (S m) c w c2 w2) by (assumption || lia).
    rewrite reconnect_attempts_step, Hatt.
    rewrite delay_before_next by lia. reflexivity.
Qed.

Lemma reconnect_run (Connect : M (option error)) (c : Client) (w : World) :
  conn c <> None ->
  reconnect Connect c w
  = reconnect_attempts Connect 10 (delay_before 1) (with_conn None c) (closed w).
Proof.
  intros Hc. unfold reconnect, bind at 1, conn_Close, bind at 1, getClient.
  destruct (conn c) as [cn|]; [|congruence].
  unfold emit, bind, modify. reflexivity.
Qed.

(** C3, as the code has it.  [reconnect] closes the transport and makes
    at most ten calls of [Connect]: it returns without error as soon as
    one call does, making no further call, and after ten calls that
    failed one after the other it returns the error "unable to
    reconnect, giving up", the world being as the tenth failure left it.
    Every call is preceded by a sleep: the sleep before attempt [i] is
    [5s * 2^(i-1)], twice the one before (so the delay between attempt
    [k] and attempt [k+1] is [5s * 2^k]). *)
Theorem reconnect_budget (Connect : M (option error)) (c : Client) (w : World) :
  conn c <> None ->
  let c0 := with_conn None c in
  let w0 := closed w in
  (forall k c1 w1 c2 w2, k < 10 ->
     attempts_fail Connect k c0 w0 c1 w1 ->
     attempt Connect (S k) c1 w1 = (Done None, c2, w2) ->
     reconnect Connect c w = (Done None, c2, w2))
  /\ (forall c1 w1,
     attempts_fail Connect 10 c0 w0 c1 w1 ->
     reconnect Connect c w
     = (Done (Some (Err "unable to reconnect, giving up")), c1, w1))
  /\ (forall i c1 w1,
     exists w2, attempt Connect i c1 w1 = Connect c1 w2
       /\ trace w2 = trace w1 ++ [EvSleep (delay_before i)])
  /\ (forall i, 1 <= i ->
     delay_before i = (5 * Second * 2 ^ (Z.of_nat i - 1))%Z
     /\ delay_before (S i) = (2 * delay_before i)%Z).
Proof.
  intros Hc c0 w0. split; [|split; [|split]].
  - intros k c1 w1 c2 w2 Hk Hf Ha.
    rewrite (reconnect_run _ _ _ Hc). fold c0 w0.
    replace 10 with (k + S (9 - k)) by lia.
    rewrite (reconnect_attempts_failed Connect k (S (9 - k)) c0 w0 c1 w1) by (assumption || lia).
    rewrite reconnect_attempts_step, Ha. reflexivity.
  - intros c1 w1 Hf.
    rewrite (reconnect_run _ _ _ Hc). fold c0 w0.
    change 10 with (10 + 0) at 1.
    rewrite (reconnect_attempts_failed Connect 10 0 c0 w0 c1 w1) by (assumption || lia).
    reflexivity.
  - intros i c1 w1. unfold attempt, bind, Sleep, emit. rewrite log_run.
    eexists. split; [reflexivity|]. cbn. now rewrite trace_after_log.
  - intros i Hi. unfold delay_before.
    replace (Z.of_nat (i - 1)) with (Z.of_nat i - 1)%Z by lia.
    split; [reflexivity|].
    replace (Z.of_nat (S i - 1)) with (Z.of_nat i - 1 + 1)%Z by lia.
    rewrite Z.pow_add_r by lia. lia.
Qed.
End Reconnect.

(** ** The lines of the helpers *)

Section Lines.
#[local] Existing Instance go_Sprintf.
Context {P : Parser}.

Lemma Sprintf_NICK (n : string) :
  Sprintf ("NICK %s" ++ eol) [VString n] = ("NICK " ++ n ++ eol)%string.
Proof. reflexivity. Qed.

Lemma Sprintf_WHOIS (n : string) :
  Sprintf ("WHOIS %s" ++ eol) [VString n] = ("WHOIS " ++ n ++ eol)%string.
Proof. reflexivity. Qed.

Lemma Sprintf_USER (u r : string) :
  Sprintf ("USER %s * * :%s" ++ eol) [VString u; VString r]
  = ("USER " ++ u ++ " * * :" ++ r ++ eol)%string.
Proof. reflexivity. Qed.

Lemma Sprintf_PRIVMSG (target : string) :
  Sprintf "PRIVMSG %s :" [VString target] = ("PRIVMSG " ++ target ++ " :")%string.
Proof. reflexivity. Qed.

Lemma Sprintf_pair (a b : string) :
  Sprintf ("%s%s" ++ eol) [VString a; VString b] = (a ++ b ++ eol)%string.
Proof. reflexivity. Qed.

(** X3. A message that fits in 510 bytes with its command goes out in
    one call of [Sendf], as the line [PRIVMSG <target> :<message>]. *)
Theorem Privmsg_short (target message : string) (c : Client) (w : World) :
  let cmd := ("PRIVMSG " ++ target ++ " :")%string in
  String.length cmd + String.length message <= 510 ->
  Privmsg target message c w = Sendf "%s%s" [VString cmd; VString message] c w
  /\ trace (world_of (Privmsg target message c w))
     = trace w ++ match conn c with
                  | Some _ => [EvWrite (truncate (cmd ++ message ++ eol))]
                  | None => []
                  end.
Proof.
  intros cmd Hl.
  assert (E : Privmsg target message c w = Sendf "%s%s" [VString cmd; VString message] c w).
  { unfold Privmsg. rewrite Sprintf_PRIVMSG. fold cmd.
    destruct (Nat.leb_spec (String.length cmd + String.length message) 510); [reflexivity|lia]. }
  split; [exact E|]. rewrite E, trace_Sendf, Sprintf_pair. reflexivity.
Qed.

(** C10. The [Nick] helper hands the line [NICK <nick>] to [Sendf], which
    writes it to the open transport (cut as every line when it is longer
    than 510 bytes), and it leaves [currentNick] alone: [GetNick] returns
    after the call what it returned before, whatever the argument. *)
Theorem Nick_keeps_currentNick (n : string) (c : Client) (w : World) :
  let r := Nick n c w in
  result_of (GetNick (client_of r) (world_of r)) = result_of (GetNick c w)
  /\ currentNick (client_of r) = currentNick c
  /\ trace (world_of r)
     = trace w ++ match conn c with
                  | Some _ => [EvWrite (truncate ("NICK " ++ n ++ eol))]
                  | None => []
                  end
  /\ (String.length n <= 503 ->
      truncate ("NICK " ++ n ++ eol) = ("NICK " ++ n ++ eol)%string).
Proof.
  intros r. subst r. unfold Nick.
  assert (Hn : currentNick (client_of (Sendf "NICK %s" [VString n] c w)) = currentNick c)
    by (rewrite client_Sendf; apply fields_after_write).
  repeat split.
  - unfold GetNick, bind, getClient, ret, result_of. cbn. now f_equal.
  - exact Hn.
  - rewrite trace_Sendf. now rewrite Sprintf_NICK.
  - intros Hl. apply truncate_short.
    rewrite !length_append. cbn. lia.
Qed.

(** C9. [ReclaimNick] asks [WHOIS <nick>] for the configured nick exactly
    when the nick it holds differs from it: with a transport open, the
    line is written if and only if the two differ; when they are equal
    nothing is sent and neither the client nor the world changes. *)
Theorem ReclaimNick_whois (c : Client) (w : World) :
  let r := ReclaimNick c w in
  let whois := EvWrite (truncate ("WHOIS " ++ nick c ++ eol)) in
  (nick c = currentNick c -> r = (Done tt, c, w))
  /\ (nick c <> currentNick c ->
      trace (world_of r) = trace w ++ match conn c with
                                      | Some _ => [whois]
                                      | None => []
                                      end)
  /\ (conn c <> None ->
      (trace (world_of r) = trace w ++ [whois] <-> nick c <> currentNick c)).
Proof.
  intros r whois.
  assert (Heq : nick c = currentNick c -> r = (Done tt, c, w)).
  { intros E. subst r. unfold ReclaimNick, bind, getClient.
    apply String.eqb_eq in E. rewrite E. reflexivity. }
  assert (Hne : nick c <> currentNick c ->
      trace (world_of r) = trace w ++ match conn c with
                                      | Some _ => [whois]
                                      | None => []
                                      end).
  { intros N. subst r whois. unfold ReclaimNick, bind at 1, getClient.
    apply String.eqb_neq in N. rewrite N. cbn [negb].
    unfold Whois, bind.
    pose proof (trace_Sendf "WHOIS %s" [VString (nick c)] c w) as T.
    rewrite Sprintf_WHOIS in T.
    destruct (Sendf "WHOIS %s" [VString (nick c)] c w) as [[[e| | |] c'] w']; exact T. }
  repeat split; try assumption.
  - intros T E. rewrite (Heq E) in T. cbn in T.
    apply (f_equal (@List.length event)) in T. rewrite length_app in T. cbn in T. lia.
  - intros N. rewrite (Hne N). destruct (conn c); [reflexivity | congruence].
Qed.

(** [Connect] up to the read loop, with the transport it was given
    ([pre] is empty) or the one it dialled ([pre] is the dial). *)
Lemma Connect_enters_loop (fuel : nat) (c : Client) (w : World) (cn : Conn)
    (pre : list event) (w0 : World) :
  nick c <> "" -> writes_succeed 2 cn ->
  (conn c = Some cn /\ pre = [] /\ network w0 = network w
   \/ conn c = None /\ addr c <> "" /\ pre = [EvDial (addr c)]
      /\ network w = DialOk cn :: network w0) ->
  exists c1 w1,
    Connect (S fuel) c w = loop (reconnect (Connect fuel)) c1 w1
    /\ nick c1 = nick c /\ currentNick c1 = nick c
    /\ user c1 = (if user c =? "" then nick c else user c)
    /\ realName c1 = (if realName c =? "" then nick c else realName c)
    /\ (exists cn1, conn c1 = Some cn1 /\ feed cn1 = feed cn)
    /\ network w1 = network w0
    /\ trace w1 = trace w ++ pre ++
         [EvWrite (truncate ("USER " ++ (if user c =? "" then nick c else user c) ++ " * * :"
                             ++ (if realName c =? "" then nick c else realName c) ++ eol));
          EvWrite (truncate ("NICK " ++ nick c ++ eol))].
Proof.
  intros Hn Hw Ht. cbn [Connect].
  destruct (seeded_fields c) as (Sc & Sa & Sn & Scur & Su & Sr).
  assert (R : forall c' w', conn c' = Some cn ->
            nick c' = nick c -> currentNick c' = nick c ->
            user c' = user (seeded c) -> realName c' = realName (seeded c) ->
            network w' = network w0 -> trace w' = trace w ++ pre ->
            exists c1 w1,
    register (loop (reconnect (Connect fuel))) c' w' = loop (reconnect (Connect fuel)) c1 w1
    /\ nick c1 = nick c /\ currentNick c1 = nick c
    /\ user c1 = (if user c =? "" then nick c else user c)
    /\ realName c1 = (if realName c =? "" then nick c else realName c)
    /\ (exists cn1, conn c1 = Some cn1 /\ feed cn1 = feed cn)
    /\ network w1 = network w0
    /\ trace w1 = trace w ++ pre ++
         [EvWrite (truncate ("USER " ++ (if user c =? "" then nick c else user c) ++ " * * :"
                             ++ (if realName c =? "" then nick c else realName c) ++ eol));
          EvWrite (truncate ("NICK " ++ nick c ++ eol))]).
  { intros c' w' Hc' Hn' Hcur' Hu' Hr' Hnet' Htr'.
    destruct (register_runs (loop (reconnect (Connect fuel))) c' w' cn Hc' Hw)
      as (w2 & E & T & N).
    exists (after_write (after_write c')), w2.
    destruct (fields_after_write c') as (_ & F2 & F3 & F4 & F5 & _).
    destruct (fields_after_write (after_write c')) as (_ & G2 & G3 & G4 & G5 & _).
    pose proof (conn_after_write _ _ Hc') as Hc1.
    pose proof (conn_after_write _ _ Hc1) as Hc2.
    rewrite E, T, Sprintf_USER, Sprintf_NICK, Htr', <- app_assoc.
    rewrite G2, G3, G4, G5, F2, F3, F4, F5, Hn', Hcur', Hu', Hr', Su, Sr, N, Hnet'.
    repeat split; try reflexivity.
    eexists. split; [exact Hc2 | reflexivity]. }
  destruct Ht as [(Hc & -> & Hnet) | (Hc & Ha & -> & Hnet)].
  - rewrite (Connect_body_open _ _ _ _ Hc Hn).
    apply R; try assumption; try reflexivity.
    + now rewrite Sc.
    + now symmetry.
    + now rewrite app_nil_r.
  - rewrite (Connect_body_dial _ _ _ _ _ Hc Ha Hn Hnet).
    apply R; try assumption; try reflexivity.
Qed.

(** C7. With a nick configured and a transport at hand (one it was
    given, or one it dials with success), [Connect] sets [currentNick]
    to the configured nick, puts the nick in the user and real-name
    fields that are empty, and then sends [USER <user> * * :<realName>]
    and [NICK <currentNick>], in that order and nothing else, before it
    enters the read loop, which it does with these lines written.  Each
    line goes through [Sendf], so it reaches the transport as it is when
    it fits in 510 bytes with its terminator. *)
Theorem Connect_registers (fuel : nat) (c : Client) (w : World) (cn : Conn) :
  nick c <> "" ->
  writes_succeed 2 cn ->
  let u := if user c =? "" then nick c else user c in
  let rn := if realName c =? "" then nick c else realName c in
  let USER := ("USER " ++ u ++ " * * :" ++ rn ++ eol)%string in
  let NICK := ("NICK " ++ nick c ++ eol)%string in
  (conn c = Some cn ->
   exists c1 w1,
     Connect (S fuel) c w = loop (reconnect (Connect fuel)) c1 w1
     /\ currentNick c1 = nick c /\ user c1 = u /\ realName c1 = rn
     /\ trace w1 = trace w ++ [EvWrite (truncate USER); EvWrite (truncate NICK)])
  /\ (conn c = None -> addr c <> "" ->
      forall rest, network w = DialOk cn :: rest ->
      exists c1 w1,
        Connect (S fuel) c w = loop (reconnect (Connect fuel)) c1 w1
        /\ currentNick c1 = nick c /\ user c1 = u /\ realName c1 = rn
        /\ trace w1 = trace w ++ [EvDial (addr c); EvWrite (truncate USER);
                                  EvWrite (truncate NICK)])
  /\ (String.length USER <= 510 -> truncate USER = USER)
  /\ (String.length NICK <= 510 -> truncate NICK = NICK).
Proof.
  intros Hn Hw u rn USER NICK. split; [|split; [|split]].
  - intros Hc.
    destruct (Connect_enters_loop fuel c w cn [] w Hn Hw) as (c1 & w1 & E & _ & H2 & H3 & H4 & _ & _ & T).
    { left. repeat split; assumption || reflexivity. }
    exists c1, w1. repeat split; assumption.
  - intros Hc Ha rest Hnet.
    destruct (Connect_enters_loop fuel c w cn [EvDial (addr c)]
                (mkWorld (trace w) (logged w) rest) Hn Hw)
      as (c1 & w1 & E & _ & H2 & H3 & H4 & _ & _ & T).
    { right. repeat split; assumption || reflexivity. }
    exists c1, w1. repeat split; assumption.
  - apply truncate_short.
  - apply truncate_short.
Qed.

End Lines.

(** ** Words of a split message *)

Section SplitFacts.

Lemma Join_cons a p ps sep :
  Join (String a p :: ps) sep = String a (Join (p :: ps) sep).
Proof. destruct ps; reflexivity. Qed.

(** [Split] cuts at every separator and nowhere else: joining the pieces
    gives the string back, no piece holds the separator, and there is one
    piece more than there are separators. *)
Lemma Split_Join (s : string) (sep : ascii) :
  Join (Split s sep) sep = s
  /\ Forall (fun p => has_byte sep p = false) (Split s sep)
  /\ List.length (Split s sep) = S (count_byte sep s).
Proof.
  induction s as [|a s (IHj & IHf & IHl)].
  - repeat split. repeat constructor.
  - cbn [Split count_byte]. destruct (Ascii.eqb a sep) eqn:E.
    + apply Ascii.eqb_eq in E. subst a. repeat split.
      * cbn [Join]. destruct (Split s sep) as [|p ps] eqn:S0.
        -- cbn in IHl. discriminate.
        -- cbn [append]. now rewrite IHj.
      * constructor; [reflexivity | assumption].
      * cbn. now rewrite IHl.
    + destruct (Split s sep) as [|p ps] eqn:S0; [cbn in IHl; discriminate|].
      repeat split.
      * rewrite Join_cons, IHj. reflexivity.
      * inversion IHf; subst. constructor; [|assumption].
        cbn. rewrite E. assumption.
      * cbn in *. assumption.
Qed.

End SplitFacts.

Section Packing.
Context {F : Formatter}.

Lemma words_of_empty : words_of "" = [].
Proof. reflexivity. Qed.

Lemma words_of_word w : has_byte " " w = false -> words_of w = filter nonempty [w].
Proof. intros H. unfold words_of. now rewrite (Split_one _ _ H). Qed.

Lemma words_of_append msg w :
  has_byte " " w = false ->
  words_of (msg ++ " " ++ w) = words_of msg ++ filter nonempty [w].
Proof.
  intros H. unfold words_of.
  change (msg ++ " " ++ w)%string with (msg ++ String " " w)%string.
  now rewrite (Split_last _ _ _ H), filter_app.
Qed.

Lemma flat_map_snoc {A B} (f : A -> list B) l x :
  flat_map f (l ++ [x]) = flat_map f l ++ f x.
Proof. rewrite flat_map_app. cbn. now rewrite app_nil_r. Qed.

(** The packing loop loses no word and adds none: the words of [msgs]
    and [msg] as it leaves them are those it found there, followed by
    the words it went through. *)
Lemma Privmsg_pack_words cmd n ws : forall i msgs msg,
  Forall (fun w => has_byte " " w = false) ws ->
  flat_map words_of (fst (Privmsg_pack cmd n i ws msgs msg)
                     ++ [snd (Privmsg_pack cmd n i ws msgs msg)])
  = flat_map words_of (msgs ++ [msg]) ++ filter nonempty ws.
Proof.
  induction ws as [|w ws IH]; intros i msgs msg Hws.
  - cbn. now rewrite app_nil_r.
  - inversion Hws as [|w' ws' Hw Hrest]; subst.
    cbn [Privmsg_pack].
    destruct ((510 <=? String.length cmd + String.length msg + String.length w + 1)%nat
              || (i =? n - 1)%nat).
    + cbn [negb String.eqb]. rewrite IH by assumption.
      rewrite (flat_map_snoc _ (msgs ++ [msg])), (words_of_word _ Hw).
      rewrite <- app_assoc. f_equal. cbn [filter]. destruct (nonempty w); reflexivity.
    + destruct (msg =? "") eqn:E; cbn [negb]; rewrite IH by assumption.
      * apply String.eqb_eq in E. subst msg.
        rewrite !flat_map_snoc, words_of_empty, app_nil_r, (words_of_word _ Hw).
        rewrite <- app_assoc. f_equal. cbn [filter]. destruct (nonempty w); reflexivity.
      * rewrite !flat_map_snoc, (words_of_append _ _ Hw).
        rewrite <- !app_assoc. do 2 f_equal. cbn [filter]. destruct (nonempty w); reflexivity.
Qed.


(** Every write succeeds: the lines go out one after the other. *)
Lemma Privmsg_send_all cmd msgs : forall (c : Client) (w : World) cn,
  conn c = Some cn -> wouts cn = [] ->
  result_of (Privmsg_send cmd msgs c w) = Done None
  /\ client_of (Privmsg_send cmd msgs c w) = c
  /\ writes (trace (world_of (Privmsg_send cmd msgs c w)))
     = writes (trace w)
       ++ map (fun m => truncate (Sprintf ("%s%s" ++ eol) [VString cmd; VString m])) msgs.
Proof.
  induction msgs as [|m msgs IH]; intros c w cn Hc Hw.
  - cbn. rewrite app_nil_r. repeat split.
  - cbn [Privmsg_send]. unfold bind. rewrite (Sendf_open _ _ _ _ _ Hc).
    assert (Hr : write_result c = None) by (rewrite (write_result_nth _ _ Hc), Hw; reflexivity).
    assert (Ha : after_write c = c).
    { unfold after_write. rewrite Hc. destruct cn as [fd wo]. cbn in Hw. now subst wo. }
    rewrite Hr, Ha.
    destruct (IH c (mkWorld
      (trace (after_log c (truncate (Sprintf ("%s%s" ++ eol) [VString cmd; VString m])) [] w)
       ++ [EvWrite (truncate (Sprintf ("%s%s" ++ eol) [VString cmd; VString m]))])
      (logged (after_log c (truncate (Sprintf ("%s%s" ++ eol) [VString cmd; VString m])) [] w))
      (network (after_log c (truncate (Sprintf ("%s%s" ++ eol) [VString cmd; VString m])) [] w)))
      cn Hc Hw) as (R & C & T).
    rewrite R, C, T. cbn [trace]. rewrite trace_after_log, writes_app. cbn.
    rewrite <- app_assoc. repeat split.
Qed.

(** With no transport nothing is sent, whatever the lines. *)
Lemma Privmsg_send_nil cmd msgs (c : Client) (w : World) :
  conn c = None -> Privmsg_send cmd msgs c w = (Done None, c, w).
Proof.
  intros Hc. induction msgs as [|m msgs IH]; [reflexivity|].
  cbn [Privmsg_send]. unfold bind. rewrite (Sendf_nil _ _ _ _ Hc). exact IH.
Qed.

(** X6. [Privmsg] called while no transport is open returns no error and
    does nothing, whatever the length of the message: a message that
    would be split is packed, and every one of its lines meets the
    [nil] check of [Sendf]. *)
Theorem Privmsg_without_conn (target message : string) (c : Client) (w : World) :
  conn c = None -> Privmsg target message c w = (Done None, c, w).
Proof.
  intros Hc. unfold Privmsg.
  destruct (String.length (Sprintf "PRIVMSG %s :" [VString target]) + String.length message <=? 510)%nat.
  - now apply Sendf_nil.
  - destruct (Privmsg_pack _ _ _ _ _ _) as [msgs msg]. now apply Privmsg_send_nil.
Qed.

End Packing.

Section Words.
#[local] Existing Instance go_Sprintf.

Lemma Privmsg_long (target message : string) (c : Client) (w : World) :
  let cmd := ("PRIVMSG " ++ target ++ " :")%string in
  510 < String.length cmd + String.length message ->
  Privmsg target message c w = Privmsg_send cmd (Privmsg_lines cmd message) c w.
Proof.
  intros cmd Hl. unfold Privmsg. rewrite Sprintf_PRIVMSG. fold cmd.
  destruct (Nat.leb_spec (String.length cmd + String.length message) 510); [lia|].
  unfold Privmsg_lines.
  destruct (Privmsg_pack cmd _ 0 _ [] "") as [msgs msg]. reflexivity.
Qed.

Lemma Privmsg_lines_words (cmd message : string) :
  flat_map words_of (Privmsg_lines cmd message)
  = filter nonempty (removelast (Split message " ")).
Proof.
  unfold Privmsg_lines.
  destruct (Split_Join message " ") as (_ & Hf & Hl).
  assert (Hne : Split message " " <> []) by apply Split_not_nil.
  rewrite (app_removelast_last EmptyString Hne) in Hf |- * .
  set (ws := removelast (Split message " ")) in *.
  set (lst := last (Split message " ") EmptyString) in *.
  apply Forall_app in Hf as [Hws _].
  rewrite Privmsg_pack_last by (rewrite length_app; cbn; lia).
  cbn [fst]. rewrite (Privmsg_pack_words _ _ _ _ _ _ Hws).
  rewrite removelast_last. reflexivity.
Qed.


(** X7. What [Privmsg] sends of a message that it splits, when every
    write succeeds: it returns no error, and the pieces it hands to
    [Sendf], one line each, hold in order and each once the words of the
    message up to its last space (the empty words between two spaces
    apart).  What follows the last space is in no piece. *)
Theorem Privmsg_sends_words (target message : string) (c : Client) (w : World) (cn : Conn) :
  conn c = Some cn -> wouts cn = [] ->
  let cmd := ("PRIVMSG " ++ target ++ " :")%string in
  let r := Privmsg target message c w in
  510 < String.length cmd + String.length message ->
  exists msgs,
    result_of r = Done None
    /\ writes (trace (world_of r))
       = writes (trace w) ++ map (fun m => truncate (cmd ++ m ++ eol)) msgs
    /\ flat_map words_of msgs = filter nonempty (removelast (Split message " ")).
Proof.
  intros Hc Hw cmd r Hl. subst r. exists (Privmsg_lines cmd message).
  rewrite (Privmsg_long target message c w Hl). fold cmd.
  destruct (Privmsg_send_all cmd (Privmsg_lines cmd message) c w cn Hc Hw) as (R & _ & T).
  rewrite R, T. repeat split. apply Privmsg_lines_words.
Qed.


End Words.

(** ** The line on the wire and in the log *)

Section Payload.
Context {F : Formatter}.

Lemma append_assoc (s t u : string) : ((s ++ t) ++ u = s ++ (t ++ u))%string.
Proof. induction s as [|a s IH]; cbn; [reflexivity | now rewrite IH]. Qed.

Lemma substring_0_append_short (n : nat) (p t : string) :
  String.length p <= n ->
  substring 0 n (p ++ t) = (p ++ substring 0 (n - String.length p) t)%string.
Proof.
  revert n. induction p as [|a p IH]; intros n Hn; cbn.
  - now rewrite Nat.sub_0_r.
  - destruct n as [|n]; cbn in *; [lia|]. rewrite IH by lia. reflexivity.
Qed.

Lemma substring_0_append_long (n : nat) (p t : string) :
  n <= String.length p -> substring 0 n (p ++ t) = substring 0 n p.
Proof.
  revert n. induction p as [|a p IH]; intros n Hn; cbn in *.
  - replace n with 0 by lia. destruct t; reflexivity.
  - destruct n as [|n]; [reflexivity|]. cbn. rewrite IH by lia. reflexivity.
Qed.

(** X9. The line [Sendf] writes, by the length of the payload [p] (the
    formatted string without its terminator): up to 508 bytes it is the
    payload and CR LF; at 509 bytes the cut falls between CR and LF, and
    the line ends in CR CR LF; from 510 bytes on it is the first 510
    bytes of the payload and CR LF. *)
Theorem Sendf_payload (format : string) (args : list value) (p : string)
    (c : Client) (w : World) (cn : Conn) :
  conn c = Some cn ->
  Sprintf (format ++ eol) args = (p ++ eol)%string ->
  exists line,
    trace (world_of (Sendf format args c w)) = trace w ++ [EvWrite line]
    /\ (String.length p <= 508 -> line = (p ++ eol)%string)
    /\ (String.length p = 509 -> line = (p ++ String CR eol)%string)
    /\ (510 <= String.length p -> line = (substring 0 510 p ++ eol)%string).
Proof.
  intros Hc Hs. exists (truncate (p ++ eol)).
  rewrite trace_Sendf, Hc, Hs. split; [reflexivity|].
  assert (L : String.length (p ++ eol) = String.length p + 2)
    by (rewrite length_append; reflexivity).
  split; [|split].
  - intros H. apply truncate_short. lia.
  - intros H. rewrite truncate_long by lia.
    rewrite substring_0_append_short by lia. rewrite H. cbn [Nat.sub].
    rewrite append_assoc. reflexivity.
  - intros H. rewrite truncate_long by lia.
    now rewrite substring_0_append_long.
Qed.


End Payload.

(** ** What a session keeps *)

Section ConnectCases.
Context {F : Formatter} {P : Parser}.

Lemma Connect_body_no_transport lp (c : Client) (w : World) :
  conn c = None -> addr c = "" ->
  Connect_body lp c w
  = (Done (Some (Err "no conn or addr found, use WithConn or WithAddr")), c, w).
Proof.
  intros Hc Ha. unfold Connect_body, bind at 1, getClient. rewrite Hc, Ha. reflexivity.
Qed.

Lemma Connect_body_no_nick lp (c : Client) (w : World) :
  nick c = "" -> (conn c <> None \/ addr c <> "") ->
  Connect_body lp c w
  = (Done (Some (Err "no nick set, use WithNick to set the nick")), c, w).
Proof.
  intros Hn Ht. unfold Connect_body, bind at 1, getClient. rewrite Hn.
  destruct (conn c) as [cn|]; [reflexivity|].
  destruct Ht as [Ht|Ht]; [congruence|].
  apply String.eqb_neq in Ht. rewrite Ht. reflexivity.
Qed.

Lemma Connect_body_dial_stuck lp (c : Client) (w : World) :
  conn c = None -> addr c <> "" -> nick c <> "" ->
  network w = [] ->
  Connect_body lp c w
  = (Stuck, seeded c, mkWorld (trace w ++ [EvDial (addr c)]) (logged w) (network w)).
Proof.
  intros Hc Ha Hn Hw. unfold Connect_body, bind at 1, getClient.
  rewrite Hc. apply String.eqb_neq in Ha, Hn. rewrite Ha, Hn. cbn [andb].
  unfold seeded, Dial, bind, modify, ret, emit. cbn.
  destruct (user c =? ""); cbn; destruct (realName c =? ""); cbn; rewrite Hw; reflexivity.
Qed.

End ConnectCases.

(** A relation between states that holds across every step of
    [Connect], [loop] and [reconnect] holds across [Connect]. *)
Section Invariant.
Context {F : Formatter} {P : Parser}.

Variable R : Client -> World -> Client -> World -> Prop.
Hypothesis R_refl : forall c w, R c w c w.
Hypothesis R_trans : forall c1 w1 c2 w2 c3 w3,
  R c1 w1 c2 w2 -> R c2 w2 c3 w3 -> R c1 w1 c3 w3.
Hypothesis R_event : forall c w e,
  R c w c (mkWorld (trace w ++ [e]) (logged w) (network w)).
Hypothesis R_log : forall c w format args, R c w c (after_log c format args w).
Hypothesis R_dial : forall c w,
  R c w c (mkWorld (trace w) (logged w) (tl (network w))).
Hypothesis R_conn : forall c w o, R c w (with_conn o c) w.
Hypothesis R_seed : forall c w, R c w (seeded c) w.

Lemma preserves_bind {A B} (m : M A) (f : A -> M B) :
  preserves R m -> (forall a, preserves R (f a)) -> preserves R (bind m f).
Proof.
  intros Hm Hf c w. specialize (Hm c w). unfold bind.
  destruct (m c w) as [[o c'] w']. cbn in Hm.
  destruct o as [a| | |]; try exact Hm.
  eapply R_trans; [exact Hm | apply Hf].
Qed.

Lemma preserves_ret {A} (a : A) : preserves R (ret a).
Proof. intros c w. apply R_refl. Qed.

Lemma preserves_getClient : preserves R getClient.
Proof. intros c w. apply R_refl. Qed.

Lemma preserves_panic {A} : preserves R (@panic A).
Proof. intros c w. apply R_refl. Qed.

Lemma preserves_stuck {A} : preserves R (@stuck A).
Proof. intros c w. apply R_refl. Qed.

Lemma preserves_emit e : preserves R (emit e).
Proof. intros c w. apply R_event. Qed.

Lemma preserves_log format args : preserves R (log format args).
Proof. intros c w. rewrite log_run. apply R_log. Qed.

Lemma preserves_set_conn o : preserves R (modify (with_conn o)).
Proof. intros c w. apply R_conn. Qed.

Lemma preserves_advance rest : preserves R (advance rest).
Proof.
  intros c w. unfold advance, modify, advanced. cbn.
  destruct (conn c); [apply R_conn | apply R_refl].
Qed.

Lemma R_after_write c w : R c w (after_write c) w.
Proof.
  unfold after_write. destruct (conn c) as [[fd [|r rest]]|]; try apply R_refl. apply R_conn.
Qed.

Lemma preserves_Sendf format args : preserves R (Sendf format args).
Proof.
  intros c w. destruct (conn c) as [cn|] eqn:Hc.
  - rewrite (Sendf_open _ _ _ _ _ Hc). cbn.
    eapply R_trans; [apply R_log|]. eapply R_trans; [apply R_event|]. apply R_after_write.
  - rewrite (Sendf_nil _ _ _ _ Hc). apply R_refl.
Qed.

Lemma preserves_register lp : preserves R lp -> preserves R (register lp).
Proof.
  intros Hlp. unfold register.
  apply preserves_bind; [apply preserves_getClient|]. intros c.
  apply preserves_bind; [apply preserves_Sendf|]. intros [e|]; [apply preserves_ret|].
  apply preserves_bind; [apply preserves_getClient|]. intros c1.
  apply preserves_bind; [apply preserves_Sendf|]. intros [e|]; [apply preserves_ret | exact Hlp].
Qed.

Lemma preserves_Connect_body lp : preserves R lp -> preserves R (Connect_body lp).
Proof.
  intros Hlp c w.
  destruct (conn c) as [cn|] eqn:Hc.
  - destruct (String.string_dec (nick c) "") as [Hn|Hn].
    + rewrite Connect_body_no_nick; [apply R_refl | assumption | left; congruence].
    + rewrite (Connect_body_open _ _ _ _ Hc Hn).
      eapply R_trans; [apply R_seed | apply preserves_register, Hlp].
  - destruct (String.string_dec (addr c) "") as [Ha|Ha].
    + rewrite Connect_body_no_transport by assumption. apply R_refl.
    + destruct (String.string_dec (nick c) "") as [Hn|Hn].
      * rewrite Connect_body_no_nick; [apply R_refl | assumption | now right].
      * assert (Hd : forall c0, R c w c0
                  (mkWorld (trace w ++ [EvDial (addr c)]) (logged w) (network w)) ->
                  R c w c0 (mkWorld (trace w ++ [EvDial (addr c)]) (logged w)
                              (tl (network w)))).
        { intros c0 H0. eapply R_trans; [exact H0|].
          apply (R_dial c0 (mkWorld (trace w ++ [EvDial (addr c)]) (logged w) (network w))). }
        assert (Hs : R c w (seeded c)
                  (mkWorld (trace w ++ [EvDial (addr c)]) (logged w) (network w))).
        { eapply R_trans; [apply R_seed | apply R_event]. }
        destruct (network w) as [|[cn|e] rest] eqn:Hw.
        -- rewrite Connect_body_dial_stuck by assumption. cbn. rewrite Hw. exact Hs.
        -- rewrite (Connect_body_dial _ _ _ _ _ Hc Ha Hn Hw).
           eapply R_trans; [|apply preserves_register, Hlp].
           eapply R_trans; [apply (Hd _ Hs) | apply R_conn].
        -- rewrite (Connect_body_dial_error _ _ _ _ _ Hc Ha Hn Hw). cbn.
           apply (Hd _ Hs).
Qed.

Lemma preserves_reconnect_attempts (Connect : M (option error)) n :
  preserves R Connect -> forall rt, preserves R (reconnect_attempts Connect n rt).
Proof.
  intros HC. induction n as [|n IH]; intros rt; cbn [reconnect_attempts].
  - apply preserves_ret.
  - apply preserves_bind; [apply preserves_log|]. intros _.
    apply preserves_bind; [apply preserves_emit|]. intros _.
    apply preserves_bind; [exact HC|]. intros [e|]; [|apply preserves_ret].
    apply preserves_bind; [apply preserves_log|]. intros _. apply IH.
Qed.

Lemma preserves_conn_Close : preserves R conn_Close.
Proof.
  unfold conn_Close. apply preserves_bind; [apply preserves_getClient|]. intros c.
  destruct (conn c); [apply preserves_emit | apply preserves_panic].
Qed.

Lemma preserves_reconnect (Connect : M (option error)) :
  preserves R Connect -> preserves R (reconnect Connect).
Proof.
  intros HC. unfold reconnect.
  apply preserves_bind; [apply preserves_conn_Close|]. intros _.
  apply preserves_bind; [apply preserves_set_conn|]. intros _.
  now apply preserves_reconnect_attempts.
Qed.

Lemma preserves_loop_on (k : M (option error)) fd : preserves R k -> preserves R (loop_on k fd).
Proof.
  intros Hk. induction fd as [|[|l err] rest IH]; cbn [loop_on].
  - apply preserves_stuck.
  - apply preserves_bind; [apply preserves_advance|]. intros _.
    apply preserves_bind; [apply preserves_conn_Close|]. intros _. apply preserves_ret.
  - apply preserves_bind; [apply preserves_advance|]. intros _.
    apply preserves_bind; [apply preserves_emit|]. intros _.
    apply preserves_bind; [apply preserves_log|]. intros _.
    destruct err as [[|msg]|]; [exact Hk | apply preserves_ret |].
    destruct (parse l) as [[m|] [e|]].
    + apply preserves_bind; [apply preserves_log | intros _; exact IH].
    + apply preserves_bind; [apply preserves_emit|]. intros _.
      apply preserves_bind; [apply preserves_emit | intros _; exact IH].
    + apply preserves_bind; [apply preserves_log | intros _; exact IH].
    + apply preserves_panic.
Qed.

Lemma preserves_loop (k : M (option error)) : preserves R k -> preserves R (loop k).
Proof.
  intros Hk. unfold loop. apply preserves_bind; [apply preserves_getClient|]. intros c.
  destruct (conn c); [now apply preserves_loop_on | apply preserves_panic].
Qed.

Lemma preserves_Connect fuel : preserves R (Connect fuel).
Proof.
  induction fuel as [|fuel IH]; cbn [Connect].
  - intros c w. apply R_refl.
  - apply preserves_Connect_body, preserves_loop, preserves_reconnect, IH.
Qed.

End Invariant.

Section Kept.
Context {F : Formatter} {P : Parser}.

Lemma debug_seeded c : debug (seeded c) = debug c.
Proof.
  unfold seeded. cbn. destruct (user c =? ""); cbn; destruct (realName c =? ""); reflexivity.
Qed.




Lemma logged_after_log c format args w :
  debug c = false -> logged (after_log c format args w) = logged w.
Proof. intros H. unfold after_log, log. rewrite H. reflexivity. Qed.

Lemma log_kept_Connect fuel : preserves log_kept (Connect fuel).
Proof.
  apply preserves_Connect.
  - intros c w. split; auto.
  - intros c1 w1 c2 w2 c3 w3 (D1 & L1) (D2 & L2). split; [congruence|].
    intros H. rewrite L2, L1; congruence.
  - intros c w e. split; auto.
  - intros c w format args. split; [reflexivity|]. apply logged_after_log.
  - intros c w. split; auto.
  - intros c w o. split; auto.
  - intros c w. split; [apply debug_seeded | auto].
Qed.




End Kept.

(** ** Fuel *)

Section Fuel.
Context {F : Formatter} {P : Parser}.

Lemma settles_bind N {A B} (m : M A) (f : A -> M B) :
  settles N m -> (forall a, settles N (f a)) -> settles N (bind m f).
Proof.
  intros Hm Hf c w Hp. destruct (Hm c w Hp) as [Hr Hle]. unfold bind.
  destruct (m c w) as [[o c'] w']. cbn in Hr, Hle.
  destruct o as [a| | |]; cbn; try (split; [discriminate | exact Hle]).
  - destruct (Hf a c' w') as [Hr' Hle']; [lia|]. split; [exact Hr' | lia].
  - congruence.
Qed.

Lemma settles_same N {A} (m : M A) :
  (forall c w, result_of (m c w) <> OutOfFuel
               /\ pending (client_of (m c w)) (world_of (m c w)) = pending c w) ->
  settles N m.
Proof. intros H c w _. destruct (H c w) as [Hr He]. split; [exact Hr | lia]. Qed.

Lemma settles_ret N {A} (a : A) : settles N (ret a).
Proof. apply settles_same. intros c w. split; [discriminate | reflexivity]. Qed.

Lemma settles_log N format args : settles N (log format args).
Proof.
  apply settles_same. intros c w. rewrite log_run. split; [discriminate|].
  unfold pending. cbn. now rewrite network_after_log.
Qed.

Lemma settles_emit N e : settles N (emit e).
Proof. apply settles_same. intros c w. split; [discriminate | reflexivity]. Qed.

Lemma pending_after_write c w : pending (after_write c) w = pending c w.
Proof.
  unfold pending, after_write. destruct (conn c) as [[fd [|r rest]]|] eqn:Hc; cbn;
    rewrite ?Hc; reflexivity.
Qed.

Lemma settles_Sendf N format args : settles N (Sendf format args).
Proof.
  apply settles_same. intros c w. destruct (conn c) as [cn|] eqn:Hc.
  - rewrite (Sendf_open _ _ _ _ _ Hc). split; [discriminate|]. cbn.
    rewrite <- (pending_after_write c w). unfold pending. cbn.
    now rewrite network_after_log.
  - rewrite (Sendf_nil _ _ _ _ Hc). split; [discriminate | reflexivity].
Qed.

Lemma settles_register N lp : settles N lp -> settles N (register lp).
Proof.
  intros Hlp. unfold register.
  apply settles_bind; [apply settles_same; intros; split; [discriminate | reflexivity]|].
  intros c. apply settles_bind; [apply settles_Sendf|]. intros [e|]; [apply settles_ret|].
  apply settles_bind; [apply settles_same; intros; split; [discriminate | reflexivity]|].
  intros c1. apply settles_bind; [apply settles_Sendf|].
  intros [e|]; [apply settles_ret | exact Hlp].
Qed.

Lemma pending_seeded c w : pending (seeded c) w = pending c w.
Proof. unfold pending. destruct (seeded_fields c) as (-> & _). reflexivity. Qed.

Lemma settles_Connect_body N lp : settles N lp -> settles N (Connect_body lp).
Proof.
  intros Hlp c w Hp.
  destruct (conn c) as [cn|] eqn:Hc.
  - destruct (String.string_dec (nick c) "") as [Hn|Hn].
    + rewrite Connect_body_no_nick; [|assumption | left; congruence].
      split; [discriminate | reflexivity].
    + rewrite (Connect_body_open _ _ _ _ Hc Hn).
      destruct (settles_register N lp Hlp (seeded c) w) as [Hr Hle];
        [now rewrite pending_seeded|].
      rewrite pending_seeded in Hle. split; assumption.
  - destruct (String.string_dec (addr c) "") as [Ha|Ha].
    + rewrite Connect_body_no_transport by assumption. split; [discriminate | reflexivity].
    + destruct (String.string_dec (nick c) "") as [Hn|Hn].
      * rewrite Connect_body_no_nick; [|assumption | now right].
        split; [discriminate | reflexivity].
      * destruct (network w) as [|[cn|e] rest] eqn:Hw.
        -- rewrite Connect_body_dial_stuck by assumption. split; [discriminate|].
           rewrite <- (pending_seeded c w). unfold pending. cbn. reflexivity.
        -- rewrite (Connect_body_dial _ _ _ _ _ Hc Ha Hn Hw).
           assert (E : pending (with_conn (Some cn) (seeded c))
                         (mkWorld (trace w ++ [EvDial (addr c)]) (logged w) rest)
                       = pending c w).
           { unfold pending. cbn. rewrite Hc, Hw. reflexivity. }
           destruct (settles_register N lp Hlp _ _ (eq_ind_r (fun x => x <= N) Hp E))
             as [Hr Hle].
           rewrite E in Hle. split; assumption.
        -- rewrite (Connect_body_dial_error _ _ _ _ _ Hc Ha Hn Hw).
           split; [discriminate|]. cbn.
           unfold pending. cbn. destruct (seeded_fields c) as (-> & _).
           rewrite Hc, Hw. reflexivity.
Qed.

Lemma settles_reconnect_attempts N (Connect : M (option error)) n :
  settles N Connect -> forall rt, settles N (reconnect_attempts Connect n rt).
Proof.
  intros HC. induction n as [|n IH]; intros rt; cbn [reconnect_attempts].
  - apply settles_ret.
  - apply settles_bind; [apply settles_log|]. intros _.
    apply settles_bind; [apply settles_emit|]. intros _.
    apply settles_bind; [exact HC|]. intros [e|]; [|apply settles_ret].
    apply settles_bind; [apply settles_log|]. intros _. apply IH.
Qed.

Lemma settles_reconnect N (Connect : M (option error)) :
  settles N Connect -> settles N (reconnect Connect).
Proof.
  intros HC. unfold reconnect.
  apply settles_bind.
  { apply settles_same. intros c w. unfold conn_Close, bind, getClient.
    destruct (conn c); split; try discriminate; reflexivity. }
  intros _. apply settles_bind.
  { intros c w _. split; [discriminate|]. unfold pending. cbn. lia. }
  intros _. now apply settles_reconnect_attempts.
Qed.

Lemma pending_advanced rest c w cn :
  conn c = Some cn ->
  pending (advanced rest c) w = eofs rest + dialled_eofs (network w).
Proof. intros Hc. unfold pending, advanced. rewrite Hc. reflexivity. Qed.

(** The loop calls [k] only after a read that returned end-of-stream. *)
Lemma settles_loop_on N (k : M (option error)) :
  (forall c w, pending c w < N ->
     result_of (k c w) <> OutOfFuel
     /\ pending (client_of (k c w)) (world_of (k c w)) <= pending c w) ->
  forall fd c w cn,
    conn c = Some cn -> feed cn = fd -> pending c w <= N ->
    result_of (loop_on k fd c w) <> OutOfFuel
    /\ pending (client_of (loop_on k fd c w)) (world_of (loop_on k fd c w)) <= pending c w.
Proof.
  intros Hk fd. induction fd as [|[|l err] rest IH]; intros c w cn Hc Hfd Hp.
  - split; [discriminate | reflexivity].
  - rewrite (loop_on_quit _ _ _ _ _ Hc). split; [discriminate|]. cbn.
    rewrite (pending_advanced _ _ _ _ Hc). unfold pending. rewrite Hc, Hfd. cbn. lia.
  - rewrite loop_on_read. cbn zeta.
    set (c1 := advanced rest c). set (w1 := after_read c1 l err w).
    assert (Hc1 : conn c1 = Some (mkConn rest (wouts cn))) by (apply conn_advanced, Hc).
    assert (Hn1 : network w1 = network w) by apply network_after_read.
    assert (E0 : pending c w = eofs (Line l err :: rest) + dialled_eofs (network w))
      by (unfold pending; rewrite Hc, Hfd; reflexivity).
    assert (E1 : forall w', network w' = network w ->
                 pending c1 w' = eofs rest + dialled_eofs (network w)).
    { intros w' Hn. unfold c1. rewrite (pending_advanced _ _ _ _ Hc), Hn. reflexivity. }
    assert (Hle : eofs rest <= eofs (Line l err :: rest))
      by (cbn; destruct err as [[|]|]; lia).
    destruct err as [[|msg]|].
    + destruct (Hk c1 w1) as [Hr Hl]; [rewrite (E1 _ Hn1); cbn in E0; lia|].
      split; [exact Hr|]. rewrite (E1 _ Hn1) in Hl. lia.
    + split; [discriminate|]. cbn. rewrite (E1 _ Hn1). lia.
    + destruct (parse l) as [[m|] [e|]].
      * destruct (IH c1 (after_log c1 (Error e) [] w1) _ Hc1 eq_refl) as [Hr Hl].
        { rewrite E1; [lia | now rewrite network_after_log]. }
        split; [exact Hr|]. rewrite E1 in Hl by (now rewrite network_after_log). lia.
      * destruct (IH c1 (mkWorld (trace w1 ++ [EvPublish (Command m) m; EvPublish "*" m])
                           (logged w1) (network w1)) _ Hc1 eq_refl) as [Hr Hl].
        { rewrite E1; [lia | exact Hn1]. }
        split; [exact Hr|]. rewrite E1 in Hl by exact Hn1. lia.
      * destruct (IH c1 (after_log c1 (Error e) [] w1) _ Hc1 eq_refl) as [Hr Hl].
        { rewrite E1; [lia | now rewrite network_after_log]. }
        split; [exact Hr|]. rewrite E1 in Hl by (now rewrite network_after_log). lia.
      * split; [discriminate|]. cbn. rewrite (E1 _ Hn1). lia.
Qed.

Lemma settles_loop N (k : M (option error)) :
  (forall c w, pending c w < N ->
     result_of (k c w) <> OutOfFuel
     /\ pending (client_of (k c w)) (world_of (k c w)) <= pending c w) ->
  settles N (loop k).
Proof.
  intros Hk c w Hp. destruct (conn c) as [cn|] eqn:Hc.
  - rewrite (loop_feed _ _ _ _ Hc). now apply (settles_loop_on N k Hk _ c w cn).
  - unfold loop, bind, getClient. rewrite Hc. split; [discriminate | reflexivity].
Qed.

Lemma settles_Connect fuel : forall N, N <= fuel -> settles N (Connect (S fuel)).
Proof.
  induction fuel as [|fuel IH]; intros N HN; cbn [Connect].
  - apply settles_Connect_body, settles_loop. intros c w Hp. lia.
  - apply settles_Connect_body, settles_loop. intros c w Hp.
    assert (HN' : N - 1 <= fuel) by lia.
    assert (Hp' : pending c w <= N - 1) by lia.
    exact (settles_reconnect (N - 1) (Connect (S fuel)) (IH (N - 1) HN') c w Hp').
Qed.

End Fuel.

Section MoreFuel.
Context {F : Formatter} {P : Parser}.

Lemma refines_refl {A} (m : M A) : refines m m.
Proof. intros c w _. reflexivity. Qed.

Lemma refines_trans {A} (m1 m2 m3 : M A) :
  refines m1 m2 -> refines m2 m3 -> refines m1 m3.
Proof.
  intros H12 H23 c w H. rewrite <- (H12 c w H). apply H23. now rewrite (H12 c w H).
Qed.

Lemma refines_bind {A B} (m m' : M A) (f f' : A -> M B) :
  refines m m' -> (forall a, refines (f a) (f' a)) -> refines (bind m f) (bind m' f').
Proof.
  intros Hm Hf c w H. unfold bind in *.
  destruct (m c w) as [[o c1] w1] eqn:E.
  assert (Hm' : m' c w = (o, c1, w1)).
  { rewrite <- E. apply Hm. rewrite E. destruct o; try discriminate.
    exfalso. apply H. reflexivity. }
  rewrite Hm'. destruct o as [a| | |]; try reflexivity. now apply Hf.
Qed.

Lemma refines_register (lp lp' : M (option error)) :
  refines lp lp' -> refines (register lp) (register lp').
Proof.
  intros H. unfold register.
  apply refines_bind; [apply refines_refl|]. intros c.
  apply refines_bind; [apply refines_refl|]. intros [e|]; [apply refines_refl|].
  apply refines_bind; [apply refines_refl|]. intros c1.
  apply refines_bind; [apply refines_refl|]. intros [e|]; [apply refines_refl | exact H].
Qed.

Lemma refines_Connect_body (lp lp' : M (option error)) :
  refines lp lp' -> refines (Connect_body lp) (Connect_body lp').
Proof.
  intros H. unfold Connect_body.
  apply refines_bind; [apply refines_refl|]. intros c.
  destruct (_ && _); [apply refines_refl|].
  destruct (nick c =? ""); [apply refines_refl|].
  apply refines_bind; [apply refines_refl|]. intros _.
  apply refines_bind; [apply refines_refl|]. intros _.
  apply refines_bind; [apply refines_refl|]. intros _.
  apply refines_bind; [apply refines_refl|].
  intros [e|]; [apply refines_refl | now apply refines_register].
Qed.

Lemma refines_reconnect_attempts (K K' : M (option error)) n :
  refines K K' -> forall rt, refines (reconnect_attempts K n rt) (reconnect_attempts K' n rt).
Proof.
  intros H. induction n as [|n IH]; intros rt; cbn [reconnect_attempts].
  - apply refines_refl.
  - apply refines_bind; [apply refines_refl|]. intros _.
    apply refines_bind; [apply refines_refl|]. intros _.
    apply refines_bind; [exact H|]. intros [e|]; [|apply refines_refl].
    apply refines_bind; [apply refines_refl|]. intros _. apply IH.
Qed.

Lemma refines_reconnect (K K' : M (option error)) :
  refines K K' -> refines (reconnect K) (reconnect K').
Proof.
  intros H. unfold reconnect.
  apply refines_bind; [apply refines_refl|]. intros _.
  apply refines_bind; [apply refines_refl|]. intros _.
  now apply refines_reconnect_attempts.
Qed.

Lemma refines_loop_on (k k' : M (option error)) fd :
  refines k k' -> refines (loop_on k fd) (loop_on k' fd).
Proof.
  intros H. induction fd as [|[|l err] rest IH]; cbn [loop_on].
  - apply refines_refl.
  - apply refines_refl.
  - apply refines_bind; [apply refines_refl|]. intros _.
    apply refines_bind; [apply refines_refl|]. intros _.
    apply refines_bind; [apply refines_refl|]. intros _.
    destruct err as [[|msg]|]; [exact H | apply refines_refl |].
    destruct (parse l) as [[m|] [e|]].
    + apply refines_bind; [apply refines_refl | intros _; exact IH].
    + apply refines_bind; [apply refines_refl|]. intros _.
      apply refines_bind; [apply refines_refl | intros _; exact IH].
    + apply refines_bind; [apply refines_refl | intros _; exact IH].
    + apply refines_refl.
Qed.

Lemma refines_loop (k k' : M (option error)) :
  refines k k' -> refines (loop k) (loop k').
Proof.
  intros H. unfold loop. apply refines_bind; [apply refines_refl|]. intros c.
  destruct (conn c); [now apply refines_loop_on | apply refines_refl].
Qed.

Lemma refines_Connect_S (fuel : nat) : refines (Connect fuel) (Connect (S fuel)).
Proof.
  induction fuel as [|fuel IH].
  - intros c w H. exfalso. apply H. reflexivity.
  - exact (refines_Connect_body _ _ (refines_loop _ _ (refines_reconnect _ _ IH))).
Qed.

Lemma refines_Connect_more (fuel more : nat) :
  refines (Connect fuel) (Connect (fuel + more)).
Proof.
  induction more as [|more IH].
  - rewrite Nat.add_0_r. apply refines_refl.
  - rewrite Nat.add_succ_r.
    exact (refines_trans _ _ _ IH (refines_Connect_S (fuel + more))).
Qed.

(** X17. [Connect] is entered again only from [reconnect], and
    [reconnect] only after a read that returned end-of-stream.  So the
    fuel is enough as soon as it exceeds the number of ends-of-stream
    still to come (on the client's transport and on those the network
    will hand out): the run does not stop for lack of fuel, and more
    fuel gives the same run. *)
Theorem Connect_fuel (fuel : nat) (c : Client) (w : World) :
  pending c w < fuel ->
  result_of (Connect fuel c w) <> OutOfFuel
  /\ forall more, Connect (fuel + more) c w = Connect fuel c w.
Proof.
  intros Hp.
  assert (H : result_of (Connect fuel c w) <> OutOfFuel).
  { destruct fuel as [|fuel]; [lia|].
    assert (Hf : pending c w <= fuel) by lia.
    exact (proj1 (settles_Connect fuel (pending c w) Hf c w (le_n _))). }
  split; [exact H|]. intros more. exact (refines_Connect_more fuel more c w H).
Qed.

End MoreFuel.

(** ** How a session ends *)

Section Outcomes.
Context {F : Formatter} {P : Parser}.



(** X15. With debugging off nothing reaches the logger during a whole
    session: every line of the log goes through [log], which tests
    [debug]. *)
Theorem Connect_quiet_log (fuel : nat) (c : Client) (w : World) :
  debug c = false -> logged (world_of (Connect fuel c w)) = logged w.
Proof. intros H. exact (proj2 (log_kept_Connect fuel c w) H). Qed.


Lemma reconnect_attempts_refused (K : M (option error)) (e0 : error) (n : nat) rt
    (c : Client) (w : World) :
  K c (mkWorld (trace (after_log c "connection closed, trying to reconnect in %d seconds"
                         [VInt (Z.quot rt Second)] w) ++ [EvSleep rt])
         (logged (after_log c "connection closed, trying to reconnect in %d seconds"
                    [VInt (Z.quot rt Second)] w))
         (network (after_log c "connection closed, trying to reconnect in %d seconds"
                     [VInt (Z.quot rt Second)] w)))
  = (Done (Some e0), c,
     mkWorld (trace (after_log c "connection closed, trying to reconnect in %d seconds"
                       [VInt (Z.quot rt Second)] w) ++ [EvSleep rt])
       (logged (after_log c "connection closed, trying to reconnect in %d seconds"
                  [VInt (Z.quot rt Second)] w))
       (network (after_log c "connection closed, trying to reconnect in %d seconds"
                   [VInt (Z.quot rt Second)] w))) ->
  exists w2,
    reconnect_attempts K (S n) rt c w = reconnect_attempts K n (wrap64 (rt * 2)) c w2
    /\ trace w2 = trace w ++ [EvSleep rt] /\ network w2 = network w.
Proof.
  intros HK. cbn [reconnect_attempts]. unfold bind at 1. rewrite log_run.
  unfold bind at 1, Sleep, emit. unfold bind at 1. rewrite HK.
  unfold bind at 1. rewrite log_run. eexists. split; [reflexivity|].
  rewrite trace_after_log, network_after_log. cbn [trace network].
  rewrite trace_after_log, network_after_log. split; reflexivity.
Qed.

Lemma reconnect_attempts_no_addr (K : M (option error)) (e0 : error) (n : nat) :
  (forall (c : Client) (w : World), conn c = None -> addr c = "" ->
     K c w = (Done (Some e0), c, w)) ->
  forall rt (c : Client) (w : World),
  conn c = None -> addr c = "" ->
  result_of (reconnect_attempts K n rt c w)
    = Done (Some (Err "unable to reconnect, giving up"))
  /\ client_of (reconnect_attempts K n rt c w) = c
  /\ trace (world_of (reconnect_attempts K n rt c w))
     = trace w ++ map EvSleep (delays n rt)
  /\ network (world_of (reconnect_attempts K n rt c w)) = network w.
Proof.
  intros HK. induction n as [|n IH]; intros rt c w Hc Ha.
  - cbn. rewrite app_nil_r. repeat split.
  - destruct (reconnect_attempts_refused K e0 n rt c w (HK _ _ Hc Ha)) as (w2 & E & T2 & N2).
    destruct (IH (wrap64 (rt * 2)) c w2 Hc Ha) as (R & C & T & N).
    rewrite E, R, C, T, N, T2, N2. cbn [delays map]. rewrite <- app_assoc.
    repeat split.
Qed.

Lemma delays_10 : delays 10 (delay_before 1) = map delay_before (seq 1 10).
Proof. vm_compute. reflexivity. Qed.

(** X18. A client that was given its transport and no address cannot
    reconnect: [reconnect] closes the transport and every one of its ten
    calls of [Connect] fails the first check at once, so it sleeps
    5, 10, ..., 2560 seconds (5115 seconds in all) without a dial or a
    write, and then returns "unable to reconnect, giving up". *)
Theorem reconnect_without_addr (fuel : nat) (c : Client) (w : World) (cn : Conn) :
  conn c = Some cn -> addr c = "" ->
  let r := reconnect (Connect (S fuel)) c w in
  result_of r = Done (Some (Err "unable to reconnect, giving up"))
  /\ client_of r = with_conn None c
  /\ trace (world_of r)
     = trace w ++ EvClose :: map EvSleep (map delay_before (seq 1 10))
  /\ network (world_of r) = network w
  /\ fold_right Z.add 0%Z (map delay_before (seq 1 10)) = (5115 * Second)%Z.
Proof.
  intros Hc Ha r. subst r.
  rewrite reconnect_run by congruence.
  destruct (reconnect_attempts_no_addr (Connect (S fuel))
              (Err "no conn or addr found, use WithConn or WithAddr") 10
              (fun c0 w0 => Connect_body_no_transport _ c0 w0)
              (delay_before 1) (with_conn None c) (closed w) eq_refl Ha)
    as (R & C & T & N).
  rewrite R, C, T, N, delays_10. unfold closed. cbn [trace network].
  rewrite <- app_assoc.
  split; [reflexivity|]. split; [reflexivity|]. split; [reflexivity|].
  split; [reflexivity|]. vm_compute. reflexivity.
Qed.

Lemma nth_1_tl {A} (l : list A) d : nth 0 (tl l) d = nth 1 l d.
Proof. destruct l as [|a [|b l]]; reflexivity. Qed.

Lemma register_write_error (lp : M (option error)) (c : Client) (w : World) (cn : Conn)
    (k : nat) (e : error) :
  conn c = Some cn ->
  k < 2 -> writes_succeed k cn -> nth k (wouts cn) None = Some e ->
  exists c' w',
    register lp c w = (Done (Some e), c', w')
    /\ trace w'
       = trace w ++ firstn (S k)
           [EvWrite (truncate (Sprintf ("USER %s * * :%s" ++ eol)
                                 [VString (user c); VString (realName c)]));
            EvWrite (truncate (Sprintf ("NICK %s" ++ eol) [VString (currentNick c)]))].
Proof.
  intros Hc Hk Hw He.
  pose proof (conn_after_write _ _ Hc) as Hc1.
  unfold register, bind at 1, getClient. unfold bind at 1.
  rewrite (Sendf_open _ _ _ _ _ Hc), (write_result_nth _ _ Hc).
  destruct k as [|[|k]]; [| |lia].
  - rewrite He. eexists _, _. split; [reflexivity|].
    cbn [trace firstn]. now rewrite trace_after_log.
  - rewrite (Hw 0) by lia.
    unfold bind at 1, getClient. unfold bind at 1, Nick.
    rewrite (Sendf_open _ _ _ _ _ Hc1), (write_result_nth _ _ Hc1). cbn [wouts].
    rewrite nth_1_tl, He. eexists _, _. split; [reflexivity|].
    destruct (fields_after_write c) as (_ & _ & -> & _).
    cbn [trace firstn]. rewrite trace_after_log. cbn [trace].
    rewrite trace_after_log, <- app_assoc. reflexivity.
Qed.

(** X19. A write that fails during registration ends [Connect] with the
    error of that write: when the [USER] line fails, the [NICK] line is
    not written; when the [NICK] line fails, both were written; in either
    case nothing is read. *)
Theorem Connect_write_error (fuel : nat) (c : Client) (w : World) (cn : Conn)
    (k : nat) (e : error) :
  conn c = Some cn -> nick c <> "" ->
  k < 2 -> writes_succeed k cn -> nth k (wouts cn) None = Some e ->
  let u := if user c =? "" then nick c else user c in
  let rn := if realName c =? "" then nick c else realName c in
  let r := Connect (S fuel) c w in
  result_of r = Done (Some e)
  /\ trace (world_of r)
     = trace w ++ firstn (S k)
         [EvWrite (truncate (Sprintf ("USER %s * * :%s" ++ eol) [VString u; VString rn]));
          EvWrite (truncate (Sprintf ("NICK %s" ++ eol) [VString (nick c)]))].
Proof.
  intros Hc Hn Hk Hw He u rn r. subst r u rn. cbn [Connect].
  rewrite (Connect_body_open _ _ _ _ Hc Hn).
  destruct (seeded_fields c) as (Sc & _ & _ & Scur & Su & Sr).
  assert (Hc0 : conn (seeded c) = Some cn) by congruence.
  destruct (register_write_error (loop (reconnect (Connect fuel))) (seeded c) w cn k e
              Hc0 Hk Hw He) as (c' & w' & E & T).
  rewrite E, <- Su, <- Sr, <- Scur. split; [reflexivity | exact T].
Qed.

End Outcomes.

(** ** The lines of the other helpers *)

Section Wire.
#[local] Existing Instance go_Sprintf.

Lemma Sprintf_NOTICE (t m : string) :
  Sprintf ("NOTICE %s :%s" ++ eol) [VString t; VString m]
  = ("NOTICE " ++ t ++ " :" ++ m ++ eol)%string.
Proof. reflexivity. Qed.

Lemma Sprintf_MODE (ch mode t : string) :
  Sprintf ("MODE %s %s %s" ++ eol) [VString ch; VString mode; VString t]
  = ("MODE " ++ ch ++ " " ++ mode ++ " " ++ t ++ eol)%string.
Proof. reflexivity. Qed.

(** X11. [Notice] sends one line, [NOTICE <target> :<message>], and
    [Noticef] the same line for the message it rendered.  A notice is
    never split: from 510 bytes on, what goes out is the first 510 bytes
    and CR LF. *)
Theorem Notice_line (target message format : string) (args : list value)
    (c : Client) (w : World) (cn : Conn) :
  conn c = Some cn ->
  let line := fun m => truncate ("NOTICE " ++ target ++ " :" ++ m ++ eol) in
  trace (world_of (Notice target message c w)) = trace w ++ [EvWrite (line message)]
  /\ trace (world_of (Noticef target format args c w))
     = trace w ++ [EvWrite (line (Sprintf format args))]
  /\ (510 <= String.length ("NOTICE " ++ target ++ " :" ++ message) ->
      line message
      = (substring 0 510 ("NOTICE " ++ target ++ " :" ++ message) ++ eol)%string).
Proof.
  intros Hc line. subst line. unfold Noticef, Notice. cbn beta.
  rewrite !trace_Sendf, Hc, !Sprintf_NOTICE. repeat split.
  intros Hl. rewrite !length_append in Hl. cbn [String.length] in Hl.
  rewrite truncate_long by (rewrite !length_append, length_eol; cbn [String.length]; lia).
  f_equal. rewrite <- !append_assoc. apply substring_0_append_long.
  rewrite !length_append. cbn [String.length]. lia.
Qed.

(** X12. [Mode] sends the line [MODE <channel> <mode> <target>] and
    returns what the write returned; the line goes out as it is when the
    three arguments have at most 501 bytes together. *)
Theorem Mode_line (channel mode target : string) (c : Client) (w : World) (cn : Conn) :
  conn c = Some cn ->
  let line := ("MODE " ++ channel ++ " " ++ mode ++ " " ++ target ++ eol)%string in
  let r := Mode channel mode target c w in
  result_of r = Done (nth 0 (wouts cn) None)
  /\ trace (world_of r) = trace w ++ [EvWrite (truncate line)]
  /\ (String.length channel + String.length mode + String.length target <= 501 ->
      truncate line = line).
Proof.
  intros Hc line r. subst r. unfold Mode. split; [|split].
  - rewrite (Sendf_open _ _ _ _ _ Hc). unfold result_of. cbn [fst].
    f_equal. now apply write_result_nth.
  - rewrite trace_Sendf, Hc, Sprintf_MODE. reflexivity.
  - intros Hl. apply truncate_short. subst line. rewrite !length_append. cbn. lia.
Qed.

(** X13. [Privmsgf] renders the message before [Privmsg] measures it:
    when the rendered message fits in 510 bytes with the command, one
    line goes out, [PRIVMSG <target> :<rendered message>]. *)
Theorem Privmsgf_short (target format : string) (args : list value)
    (c : Client) (w : World) (cn : Conn) :
  conn c = Some cn ->
  let cmd := ("PRIVMSG " ++ target ++ " :")%string in
  let message := Sprintf format args in
  String.length cmd + String.length message <= 510 ->
  trace (world_of (Privmsgf target format args c w))
  = trace w ++ [EvWrite (truncate (cmd ++ message ++ eol))].
Proof.
  intros Hc cmd message Hl. unfold Privmsgf, Privmsg. fold message.
  rewrite Sprintf_PRIVMSG. fold cmd.
  destruct (Nat.leb_spec (String.length cmd + String.length message) 510); [|lia].
  rewrite trace_Sendf, Hc, Sprintf_pair. reflexivity.
Qed.

End Wire.

(** ** A read error inside a reconnect *)

Section Retries.
#[local] Existing Instance go_Sprintf.
Context {P : Parser}.

(** X20. Inside [reconnect] a read error other than end-of-stream does
    not end the session.  When the first attempt dials with success,
    registers, and its first read fails, [Connect] returns that error to
    [reconnect], which takes the attempt for a failed one: it goes on
    with the nine turns left and a delay of 10 seconds.  The transport
    that was dialled is still the client's, so the next [Connect] does
    not dial. *)
Theorem reconnect_read_error (fuel : nat) (c : Client) (w : World) (cn cn1 : Conn)
    (net : list dial_result) (l msg : string) (rest : list input) :
  conn c = Some cn -> addr c <> "" -> nick c <> "" ->
  network w = DialOk cn1 :: net ->
  writes_succeed 2 cn1 ->
  feed cn1 = Line l (Some (Err msg)) :: rest ->
  let u := if user c =? "" then nick c else user c in
  let rn := if realName c =? "" then nick c else realName c in
  let USER := EvWrite (truncate ("USER " ++ u ++ " * * :" ++ rn ++ eol)) in
  let NICK := EvWrite (truncate ("NICK " ++ nick c ++ eol)) in
  exists c1 w1,
    reconnect (Connect (S fuel)) c w
    = reconnect_attempts (Connect (S fuel)) 9 (delay_before 2) c1 w1
    /\ (exists cn', conn c1 = Some cn' /\ feed cn' = rest)
    /\ trace w1 = trace w ++ [EvClose; EvSleep (delay_before 1); EvDial (addr c);
                              USER; NICK; EvReadLine l (Some (Err msg))]
    /\ network w1 = net.
Proof.
  intros Hc Ha Hn Hnet Hw Hfeed u rn USER NICK.
  rewrite reconnect_run by congruence.
  rewrite reconnect_attempts_step.
  set (c0 := with_conn None c). set (w0 := closed w).
  assert (Att : exists w0', attempt (Connect (S fuel)) 1 c0 w0 = Connect (S fuel) c0 w0'
                 /\ trace w0' = trace w0 ++ [EvSleep (delay_before 1)]
                 /\ network w0' = network w0).
  { unfold attempt, bind, Sleep, emit. rewrite log_run. eexists. split; [reflexivity|].
    cbn [trace network]. now rewrite trace_after_log, network_after_log. }
  destruct Att as (w0' & Att & T0 & N0). rewrite Att.
  destruct (Connect_enters_loop fuel c0 w0' cn1 [EvDial (addr c0)]
              (mkWorld (trace w0') (logged w0') net) Hn Hw)
    as (c1 & w1 & E & _ & _ & Hu & Hr & (cn1' & Hc1 & Hf1) & N1 & T1).
  { right. repeat split; try reflexivity; try exact Ha. rewrite N0. exact Hnet. }
  rewrite E, (loop_feed _ _ _ _ Hc1), Hf1, Hfeed, loop_on_read. cbn zeta.
  rewrite delay_before_next by lia.
  eexists _, _. split; [reflexivity|]. split; [|split].
  - rewrite (conn_advanced _ _ _ Hc1). eexists. split; reflexivity.
  - rewrite trace_after_log, trace_after_read, T1, T0. subst w0 c0 USER NICK u rn.
    cbn [closed trace with_conn addr nick user realName]. rewrite <- !app_assoc. reflexivity.
  - rewrite network_after_log, network_after_read, N1. reflexivity.
Qed.

End Retries.

(** ** Runs of the examples *)

Section Examples.
#[local] Existing Instance go_Sprintf.
#[local] Existing Instance parse_tests.

(** Against C1 as the specification words it: a format of 600 bytes
    without verb gives a formatted string of 602 bytes, and the line
    that reaches the transport is 512 bytes long, not 510 or fewer. *)
Lemma Sendf_line_of_512_bytes :
  exists s,
    writes (trace (world_of (Sendf (replicate 600 "a") [] test_client fresh_world))) = [s]
    /\ String.length (Sprintf (replicate 600 "a" ++ eol) []) = 602
    /\ String.length s = 512
    /\ ~ String.length s <= 510.
Proof.
  eexists. split; [vm_compute; reflexivity|].
  split; [vm_compute; reflexivity|].
  split; [vm_compute; reflexivity|].
  vm_compute. lia.
Qed.

Lemma Sendf_line_at_most_512_witness :
  String.length (truncate (Sprintf (replicate 600 "a" ++ eol) [])) = 512.
Proof.
  destruct (Sendf_line_at_most_512 (replicate 600 "a") [] test_client fresh_world)
    as (_ & _ & _ & H).
  apply H. vm_compute. lia.
Defined.

Lemma Sendf_without_conn_witness :
  Sendf "NICK %s" [VString "foo"] offline_client fresh_world
  = (Done None, offline_client, fresh_world).
Proof.
  apply (Sendf_without_conn "NICK %s" [VString "foo"] offline_client fresh_world).
  reflexivity.
Defined.

(** C2 on the code: a message of two words of 300 bytes, 613 bytes with
    the command.  [Privmsg] sends one line, which holds the first word;
    the second word is sent in no line. *)
Theorem Privmsg_drops_last_word :
  String.length (Sprintf "PRIVMSG %s :" [VString "#c"]) + String.length two_long_words = 613
  /\ Split two_long_words " " = [replicate 300 "a"; replicate 300 "b"]
  /\ Privmsg "#c" two_long_words test_client fresh_world
     = (Done None, test_client,
        mkWorld [EvWrite ("PRIVMSG #c :" ++ replicate 300 "a" ++ eol)] [] []).
Proof.
  split; [vm_compute; reflexivity|]. split; vm_compute; reflexivity.
Qed.

(** Against C3 as the specification words it: ten refused dials.  The
    sleep between the first attempt and the second is 10 seconds, where
    [5s * 2^(k-1)] gives 5 seconds for [k = 1]. *)
Lemma reconnect_second_delay :
  let r := reconnect (Connect 1) redial_client refusing_world in
  result_of r = Done (Some (Err "unable to reconnect, giving up"))
  /\ firstn 5 (trace (world_of r))
     = [EvClose;
        EvSleep (5 * Second); EvDial "irc.example.net:6667";
        EvSleep (10 * Second); EvDial "irc.example.net:6667"]
  /\ (10 * Second <> 5 * Second * 2 ^ (1 - 1))%Z.
Proof.
  split; [vm_compute; reflexivity|]. split; [vm_compute; reflexivity|].
  vm_compute. discriminate.
Qed.

Lemma reconnect_budget_witness :
  result_of (reconnect (Connect 1) redial_client refusing_world)
  = Done (Some (Err "unable to reconnect, giving up"))
  /\ result_of (reconnect (Connect 1) redial_client third_time_world) = Done None.
Proof.
  split.
  - destruct (reconnect_budget (Connect 1) redial_client refusing_world) as (_ & H & _).
    + discriminate.
    + erewrite H; [reflexivity | failed_attempts].
  - destruct (reconnect_budget (Connect 1) redial_client third_time_world) as (H & _).
    + discriminate.
    + erewrite (H 2); [reflexivity | lia | failed_attempts | vm_compute; reflexivity].
Defined.

Lemma read_errors_witness :
  exists c1 w1,
    Connect 1 broken_client fresh_world
    = (Done (Some (Err "connection reset by peer")), c1, w1)
    /\ trace w1 = trace registered_world
                  ++ flat_map dispatch ["PING :irc.foo.com"]
                  ++ [EvReadLine "" (Some (Err "connection reset by peer"))].
Proof.
  destruct (read_errors 0 broken_client fresh_world (registered broken_conn)
              registered_world broken_conn ["PING :irc.foo.com"] ""
              (Some (Err "connection reset by peer")) [])
    as (c1 & w1 & T & _ & H & _).
  - vm_compute; reflexivity.
  - reflexivity.
  - reflexivity.
  - all_parse.
  - exists c1, w1. split; [exact (H _ eq_refl) | exact T].
Defined.

Lemma loop_publishes_witness :
  trace (world_of (loop (reconnect (Connect 0)) (registered chatty_conn) registered_world))
  = [EvWrite ("USER bar * * :foo bar" ++ eol); EvWrite ("NICK foo" ++ eol);
     EvReadLine "PING :irc.foo.com" None;
     EvPublish "PING"
       (mkMessage "PING :irc.foo.com" "PING" ":irc.foo.com" [":irc.foo.com"] "" "" "");
     EvPublish "*"
       (mkMessage "PING :irc.foo.com" "PING" ":irc.foo.com" [":irc.foo.com"] "" "" "");
     EvReadLine "foo:" None;
     EvReadLine ":foo!~bar@127.0.0.1 JOIN :#foo" None;
     EvPublish "JOIN"
       (mkMessage ":foo!~bar@127.0.0.1 JOIN :#foo" "JOIN" ":#foo" [":#foo"]
          "foo" "~bar" "127.0.0.1");
     EvPublish "*"
       (mkMessage ":foo!~bar@127.0.0.1 JOIN :#foo" "JOIN" ":#foo" [":#foo"]
          "foo" "~bar" "127.0.0.1")].
Proof.
  destruct (loop_publishes (reconnect (Connect 0)) (registered chatty_conn) registered_world
              chatty_conn
              ["PING :irc.foo.com"; "foo:"; ":foo!~bar@127.0.0.1 JOIN :#foo"] [])
    as (_ & _ & _ & H).
  - reflexivity.
  - reflexivity.
  - all_parse.
  - rewrite (H eq_refl). vm_compute. reflexivity.
Defined.

Lemma Connect_config_errors_witness :
  Connect 1 offline_client fresh_world
  = (Done (Some (Err "no conn or addr found, use WithConn or WithAddr")),
     offline_client, fresh_world)
  /\ Connect 1 nameless_client fresh_world
     = (Done (Some (Err "no nick set, use WithNick to set the nick")),
        nameless_client, fresh_world).
Proof.
  split.
  - apply (Connect_config_errors 0 offline_client fresh_world); reflexivity.
  - apply (Connect_config_errors 0 nameless_client fresh_world);
      [reflexivity | left; discriminate].
Defined.

Lemma Connect_registers_witness :
  exists c1 w1,
    Connect 1 test_client fresh_world = loop (reconnect (Connect 0)) c1 w1
    /\ currentNick c1 = "foo" /\ user c1 = "bar" /\ realName c1 = "foo bar"
    /\ trace w1 = [EvWrite ("USER bar * * :foo bar" ++ eol); EvWrite ("NICK foo" ++ eol)].
Proof.
  destruct (Connect_registers 0 test_client fresh_world quiet_conn) as (H & _).
  - discriminate.
  - intros i _. destruct i as [|[|i]]; reflexivity.
  - exact (H eq_refl).
Defined.

Lemma ReclaimNick_whois_witness :
  trace (world_of (ReclaimNick displaced_client fresh_world)) = [EvWrite ("WHOIS foo" ++ eol)]
  /\ ReclaimNick (registered quiet_conn) fresh_world
     = (Done tt, registered quiet_conn, fresh_world).
Proof.
  split.
  - destruct (ReclaimNick_whois displaced_client fresh_world) as (_ & H & _).
    apply H. discriminate.
  - destruct (ReclaimNick_whois (registered quiet_conn) fresh_world) as (H & _).
    apply H. reflexivity.
Defined.

Lemma Nick_keeps_currentNick_witness :
  currentNick (client_of (Nick "bar" (registered quiet_conn) fresh_world)) = "foo"
  /\ trace (world_of (Nick "bar" (registered quiet_conn) fresh_world))
     = [EvWrite ("NICK bar" ++ eol)].
Proof.
  destruct (Nick_keeps_currentNick "bar" (registered quiet_conn) fresh_world)
    as (_ & H & T & _).
  split; [exact H | exact T].
Defined.

Lemma loop_quit_witness :
  result_of (loop (reconnect (Connect 0)) (registered quitting_conn) registered_world)
  = Done None
  /\ trace (world_of (loop (reconnect (Connect 0)) (registered quitting_conn)
                        registered_world))
     = trace registered_world ++ flat_map dispatch ["PING :irc.foo.com"] ++ [EvClose].
Proof.
  apply (loop_quit (reconnect (Connect 0)) (registered quitting_conn) registered_world
           quitting_conn ["PING :irc.foo.com"] []).
  - reflexivity.
  - reflexivity.
  - all_parse.
Defined.

Lemma loop_nil_message_witness :
  result_of (loop_on (reconnect (Connect 0)) [Line "" None] (registered quiet_conn)
               registered_world)
  = Panic.
Proof.
  apply (loop_nil_message (reconnect (Connect 0)) "" [] (registered quiet_conn)
           registered_world).
  reflexivity.
Defined.

Lemma Privmsg_send_stops_witness :
  let r := Privmsg_send "PRIVMSG #c :" ["a"; "b"; "c"] (registered failing_conn) fresh_world in
  result_of r = Done (Some (Err "broken pipe"))
  /\ writes (trace (world_of r))
     = ["PRIVMSG #c :a" ++ eol; "PRIVMSG #c :b" ++ eol]%string.
Proof.
  exact (Privmsg_send_stops "PRIVMSG #c :" ["a"] "b" ["c"] (Err "broken pipe") []
           (registered failing_conn) fresh_world failing_conn eq_refl eq_refl).
Defined.

Lemma Privmsg_short_witness :
  trace (world_of (Privmsg "#c" "hello world" test_client fresh_world))
  = [EvWrite ("PRIVMSG #c :hello world" ++ eol)].
Proof.
  destruct (Privmsg_short "#c" "hello world" test_client fresh_world) as (_ & T).
  - vm_compute. lia.
  - exact T.
Defined.

Lemma Connect_dial_error_witness :
  result_of (Connect 1 dialing_client refusing_world)
  = Done (Some (Err "connection refused"))
  /\ writes (trace (world_of (Connect 1 dialing_client refusing_world))) = [].
Proof.
  destruct (Connect_dial_error 0 dialing_client refusing_world (Err "connection refused")
              (repeat (DialErr (Err "connection refused")) 9))
    as (R & _ & T); try reflexivity; try discriminate.
  split; [exact R | rewrite T; reflexivity].
Defined.

Lemma Privmsg_without_conn_witness :
  Privmsg "#c" two_long_words offline_client fresh_world
  = (Done None, offline_client, fresh_world).
Proof.
  apply (Privmsg_without_conn "#c" two_long_words offline_client fresh_world).
  reflexivity.
Defined.

Lemma Privmsg_sends_words_witness :
  exists msgs,
    result_of (Privmsg "#c" two_long_words test_client fresh_world) = Done None
    /\ writes (trace (world_of (Privmsg "#c" two_long_words test_client fresh_world)))
       = writes (trace fresh_world)
         ++ map (fun m => truncate (("PRIVMSG " ++ "#c" ++ " :") ++ m ++ eol)) msgs
    /\ flat_map words_of msgs = filter nonempty (removelast (Split two_long_words " ")).
Proof.
  apply (Privmsg_sends_words "#c" two_long_words test_client fresh_world quiet_conn);
    [reflexivity | reflexivity | vm_compute; lia].
Defined.


Lemma Sendf_payload_witness :
  trace (world_of (Sendf "NICK %s" [VString "foo"] test_client fresh_world))
  = [EvWrite ("NICK foo" ++ eol)].
Proof.
  destruct (Sendf_payload "NICK %s" [VString "foo"] "NICK foo" test_client fresh_world
              quiet_conn eq_refl eq_refl) as (line & T & H & _).
  rewrite T, H; [reflexivity | vm_compute; lia].
Defined.


Lemma Notice_line_witness :
  trace (world_of (Noticef "#c" "%d users" [VInt 3] test_client fresh_world))
  = [EvWrite ("NOTICE #c :3 users" ++ eol)].
Proof.
  pose proof (Notice_line "#c" "" "%d users" [VInt 3] test_client fresh_world quiet_conn
                eq_refl) as H.
  cbv zeta in H. destruct H as (_ & T & _).
  rewrite T. vm_compute. reflexivity.
Defined.

Lemma Mode_line_witness :
  trace (world_of (Mode "#c" "+o" "bar" test_client fresh_world))
  = [EvWrite ("MODE #c +o bar" ++ eol)].
Proof.
  pose proof (Mode_line "#c" "+o" "bar" test_client fresh_world quiet_conn eq_refl) as H.
  cbv zeta in H. destruct H as (_ & T & _).
  rewrite T. vm_compute. reflexivity.
Defined.

Lemma Privmsgf_short_witness :
  trace (world_of (Privmsgf "#c" "%d users" [VInt 3] test_client fresh_world))
  = [EvWrite ("PRIVMSG #c :3 users" ++ eol)].
Proof.
  rewrite (Privmsgf_short "#c" "%d users" [VInt 3] test_client fresh_world quiet_conn eq_refl).
  - vm_compute. reflexivity.
  - vm_compute. lia.
Defined.

Lemma Connect_quiet_log_witness :
  logged (world_of (Connect 2 hangup_client fresh_world)) = [].
Proof. exact (Connect_quiet_log 2 hangup_client fresh_world eq_refl). Defined.


Lemma Connect_fuel_witness :
  result_of (Connect 2 hangup_client fresh_world) <> OutOfFuel
  /\ Connect 5 hangup_client fresh_world = Connect 2 hangup_client fresh_world.
Proof.
  destruct (Connect_fuel 2 hangup_client fresh_world) as (H1 & H2); [vm_compute; lia|].
  split; [exact H1 | exact (H2 3)].
Defined.

Lemma reconnect_without_addr_witness :
  result_of (reconnect (Connect 1) test_client fresh_world)
  = Done (Some (Err "unable to reconnect, giving up"))
  /\ sleeps (trace (world_of (reconnect (Connect 1) test_client fresh_world)))
     = map delay_before (seq 1 10).
Proof.
  pose proof (reconnect_without_addr 0 test_client fresh_world quiet_conn eq_refl eq_refl) as H.
  cbv zeta in H. destruct H as (R & _ & T & _).
  split; [exact R | rewrite T; vm_compute; reflexivity].
Defined.

Lemma Connect_write_error_witness :
  result_of (Connect 1 (registered failing_conn) fresh_world) = Done (Some (Err "broken pipe"))
  /\ trace (world_of (Connect 1 (registered failing_conn) fresh_world))
     = [EvWrite ("USER bar * * :foo bar" ++ eol); EvWrite ("NICK foo" ++ eol)].
Proof.
  assert (Hw : writes_succeed 1 failing_conn)
    by (intros i Hi; destruct i; [reflexivity | lia]).
  pose proof (Connect_write_error 0 (registered failing_conn) fresh_world failing_conn 1
                (Err "broken pipe") eq_refl) as H.
  cbv zeta in H. destruct H as (R & T); [discriminate | lia | exact Hw | reflexivity |].
  split; [exact R | rewrite T; vm_compute; reflexivity].
Defined.

Lemma reconnect_read_error_witness :
  exists c1 w1,
    reconnect (Connect 1) redial_client reset_world
    = reconnect_attempts (Connect 1) 9 (delay_before 2) c1 w1
    /\ (exists cn', conn c1 = Some cn' /\ feed cn' = [])
    /\ trace w1 = [EvClose; EvSleep (5 * Second); EvDial "irc.example.net:6667";
                   EvWrite ("USER bar * * :foo bar" ++ eol); EvWrite ("NICK foo" ++ eol);
                   EvReadLine "" (Some (Err "connection reset by peer"))]
    /\ network w1 = [].
Proof.
  assert (Hw : writes_succeed 2 reset_conn)
    by (intros i _; destruct i as [|[|i]]; reflexivity).
  pose proof (reconnect_read_error 0 redial_client reset_world quiet_conn reset_conn []
                "" "connection reset by peer" [] eq_refl) as H.
  cbv zeta in H.
  destruct H as (c1 & w1 & E & C & T & N);
    [discriminate | discriminate | reflexivity | exact Hw | reflexivity |].
  exists c1, w1. split; [exact E|]. split; [exact C|]. split; [|exact N].
  rewrite T. vm_compute. reflexivity.
Defined.

End Examples.
